(** * text_encoder: the Tokenizer and the TokenTextEncoder

    A shallow embedding of
    [tensorflow_datasets/core/features/text/text_encoder.py].

    Python [unicode] strings are lists of code points, Python integers are
    [Z], the [dict] [_token_to_id] is a [gmap], the [set] of reserved
    tokens is a [gset], and a raised exception is the left injection of a
    sum.  What the module takes from outside the repository (the Unicode
    tables behind [\W] and [str.strip], the digest behind [hashlib.md5],
    the UTF-8 encoder, the file system) is a [Variable] of the section
    that uses it. *)

From Stdlib Require Import ZArith NArith Ascii String.
From stdpp Require Import gmap list.
From Equations Require Import Equations.

Local Open Scope Z_scope.

(** ** Text *)

(** A code point. *)
Definition char : Type := N.

(** A Python [unicode] string. *)
Definition text : Type := list char.

(** The text of an ASCII literal of the source. *)
Definition text_of (s : string) : text :=
  map N_of_ascii (list_ascii_of_string s).

(** [sep.join(parts)]. *)
Fixpoint str_join (sep : text) (parts : list text) : text :=
  match parts with
  | [] => []
  | [p] => p
  | p :: ps => p ++ sep ++ str_join sep ps
  end.

(** [s.startswith(tok)]. *)
Fixpoint startswith (tok s : text) : bool :=
  match tok, s with
  | [], _ => true
  | _ :: _, [] => false
  | a :: tok', b :: s' => N.eqb a b && startswith tok' s'
  end.

(** The truth value of a string or of a list: non-empty. *)
Definition truthy {A} (l : list A) : bool :=
  match l with [] => false | _ :: _ => true end.

(** The truth value of an optional argument whose default is [None]. *)
Definition truthy_opt {A} (o : option (list A)) : bool :=
  match o with None => false | Some l => truthy l end.

(** ** Exceptions *)

Inductive exn : Type :=
| ValueError (msg : text)
| IndexError
| NotFoundError (fname : text).

Definition result (A : Type) : Type := exn + A.

Definition raise {A} (e : exn) : result A := inl e.
Definition ret {A} (a : A) : result A := inr a.

Definition bind {A B} (r : result A) (k : A -> result B) : result B :=
  match r with
  | inl e => inl e
  | inr a => k a
  end.

Notation "x <- r ;; k" := (bind r (fun x => k))
  (at level 100, r at next level, right associativity, only parsing).

(** A [for] loop that appends one result per element and stops at the
    first exception. *)
Fixpoint for_each {A B} (f : A -> result B) (l : list A) : result (list B) :=
  match l with
  | [] => ret []
  | a :: l' => b <- f a ;; bs <- for_each f l' ;; ret (b :: bs)
  end.

(** ** The regular expressions of the module *)

(** The characters that [re] does not read literally. *)
Definition regex_special (c : char) : bool :=
  bool_decide (c ∈ text_of ".^$*+?{}[]\|()").

(** A reserved token that the pattern [u"(%s)" % u"|".join(reserved_tokens)]
    reads as itself: it is non-empty and holds no special character.  The
    source does not escape the tokens, so [re_split] below is [re.split]
    for an alternation of such tokens only. *)
Definition regex_literal (tok : text) : Prop :=
  tok <> [] /\ forallb (fun c => negb (regex_special c)) tok = true.

(** The two shapes of pattern that [Tokenizer.__init__] compiles. *)
Inductive pattern : Type :=
| NonWordRun (capture : bool)      (* r"\W+" and r"(\W+)" *)
| Alternation (toks : list text).  (* u"(%s)" % u"|".join(toks) *)

(** Whether the whole pattern is a capturing group. *)
Definition captures (p : pattern) : bool :=
  match p with
  | NonWordRun capture => capture
  | Alternation _ => true
  end.

Section Regex.

(** The Unicode classification behind [\w] under [re.UNICODE]. *)
Variable isword : char -> bool.

(** The longest run of non-word characters at the start of [s]. *)
Fixpoint nonword_run (s : text) : nat :=
  match s with
  | [] => 0%nat
  | c :: s' => if isword c then 0%nat else S (nonword_run s')
  end.

(** The length of the match of [p] anchored at the start of [s]: the
    greedy run for [\W+], the first listed alternative that fits for an
    alternation. *)
Definition match_at (p : pattern) (s : text) : option nat :=
  match p with
  | NonWordRun _ =>
      match nonword_run s with
      | O => None
      | n => Some n
      end
  | Alternation toks => length <$> List.find (fun tok => startswith tok s) toks
  end.

(** [p.split(s)], with [cur] the piece read since the last match.  The
    scan takes the leftmost match, emits the piece before it (and the
    match itself under a capturing group) and goes on after it; an
    empty match does not split. *)
Equations? re_split_from (p : pattern) (s : text) (cur : text) : list text
  by wf (length s) lt :=
  re_split_from p [] cur := [cur];
  re_split_from p (c :: s') cur with match_at p (c :: s') := {
    | Some (S n) =>
        cur :: (if captures p then [take (S n) (c :: s')] else [])
            ++ re_split_from p (drop n s') []
    | _ => re_split_from p s' (cur ++ [c]) }.
Proof.
  all: simpl; try lia.
  rewrite length_drop. lia.
Qed.

Definition re_split (p : pattern) (s : text) : list text :=
  re_split_from p s [].

End Regex.

(** ** Tokenizer *)

Record Tokenizer : Type := {
  _alphanum_only : bool;
  _reserved_tokens : gset text;
  _reserved_tokens_re : option pattern;
  _alphanum_re : pattern
}.

(** [Tokenizer.__init__(alphanum_only, reserved_tokens)]; the defaults are
    [true] and [None]. *)
Definition Tokenizer_init (alphanum_only : bool)
    (reserved_tokens : option (list text)) : Tokenizer :=
  let toks := default [] reserved_tokens in
  let reserved : gset text := list_to_set toks in
  {| _alphanum_only := alphanum_only;
     _reserved_tokens := reserved;
     _reserved_tokens_re :=
       if decide (reserved = ∅) then None else Some (Alternation toks);
     _alphanum_re :=
       if alphanum_only then NonWordRun false else NonWordRun true |}.

Section Tokenize.

Variable isword : char -> bool.

(** [Tokenizer.tokenize(s)]. *)
Definition tokenize (t : Tokenizer) (s : text) : list text :=
  let reserved_tokens := _reserved_tokens t in
  let substrs :=
    if decide (reserved_tokens = ∅) then [s]
    else match _reserved_tokens_re t with
         | Some re => re_split isword re s
         | None => [s]  (* the attribute is set when the set is not empty *)
         end in
  let toks :=
    concat (map (fun substr =>
                   if decide (substr ∈ reserved_tokens) then [substr]
                   else re_split isword (_alphanum_re t) substr)
                substrs) in
  List.filter truthy toks.

(** [Tokenizer.join(tokens)]. *)
Definition join (t : Tokenizer) (tokens : list text) : text :=
  if _alphanum_only t then str_join (text_of " ") tokens
  else str_join [] tokens.

End Tokenize.

(** ** TokenTextEncoder *)

Record TokenTextEncoder : Type := {
  _vocab_list : list text;
  _token_to_id : gmap text Z;
  _oov_buckets : Z;
  _oov_token : text;
  _tokenizer : Tokenizer
}.

(** [range(n)]. *)
Definition range (n : nat) : list Z := Z.of_nat <$> seq 0 n.

(** [dict(pairs)]: the pairs are inserted in order, so a later pair with
    the same key replaces the earlier one. *)
Definition dict (pairs : list (text * Z)) : gmap text Z :=
  foldl (fun m kv => <[kv.1 := kv.2]> m) ∅ pairs.

(** [l[i]] for a Python list: a negative index counts from the end. *)
Definition py_index {A} (l : list A) (i : Z) : result A :=
  let n := Z.of_nat (length l) in
  let j := if i <? 0 then i + n else i in
  if j <? 0 then raise IndexError
  else match l !! Z.to_nat j with
       | Some x => ret x
       | None => raise IndexError
       end.

(** [s.split(sep)] for a separator of one character. *)
Fixpoint str_split (sep : char) (s : text) : list text :=
  match s with
  | [] => [[]]
  | c :: s' =>
      if N.eqb c sep then [] :: str_split sep s'
      else match str_split sep s' with
           | p :: ps => (c :: p) :: ps
           | [] => [[c]]
           end
  end.

Section Encoder.

Variable isword : char -> bool.

(** The classification behind [str.strip]. *)
Variable isspace : char -> bool.

(** [tf.compat.as_bytes] on a [unicode] string: its UTF-8 encoding. *)
Variable as_bytes : text -> list Byte.byte.

(** [int(hashlib.md5(b).hexdigest(), 16)]. *)
Variable md5 : list Byte.byte -> Z.

(** The text of the file [fname], when [tf.gfile.Open] finds it. *)
Variable gfile : text -> option text.

Fixpoint lstrip (s : text) : text :=
  match s with
  | [] => []
  | c :: s' => if isspace c then lstrip s' else s
  end.

(** [s.strip()]. *)
Definition strip (s : text) : text := rev (lstrip (rev (lstrip s))).

Definition _load_tokens_from_file (fname : text) : result (list text) :=
  match gfile fname with
  | None => raise (NotFoundError fname)
  | Some content => ret (strip <$> str_split 10%N content)
  end.

(** [TokenTextEncoder.__init__(vocab_list, vocab_file, oov_buckets,
    oov_token)]; the defaults are [None], [None], [1] and [u"UNK"]. *)
Definition TokenTextEncoder_init (vocab_list : option (list text))
    (vocab_file : option text) (oov_buckets : Z) (oov_token : text)
  : result TokenTextEncoder :=
  if negb (truthy_opt vocab_list || truthy_opt vocab_file)
     || (truthy_opt vocab_list && truthy_opt vocab_file)
  then raise (ValueError
                (text_of "Must provide either vocab_list or vocab_file."))
  else
    els <- (if truthy_opt vocab_list then ret (default [] vocab_list)
            else _load_tokens_from_file (default [] vocab_file)) ;;
    let vocab := strip <$> els in
    ret {| _vocab_list := vocab;
           _token_to_id := dict (zip vocab (range (length vocab)));
           _oov_buckets := oov_buckets;
           _oov_token := oov_token;
           _tokenizer := Tokenizer_init true None |}.

Definition _oov_bucket (enc : TokenTextEncoder) (token : text) : option Z :=
  if _oov_buckets enc <=? 0 then None
  else if _oov_buckets enc =? 1 then Some (Z.of_nat (length (_vocab_list enc)))
  else
    let hash_val := md5 (as_bytes token) in
    Some (Z.of_nat (length (_vocab_list enc)) + hash_val `mod` _oov_buckets enc).

(** The body of the loop of [encode]: the id of one token. *)
Definition encode_token (enc : TokenTextEncoder) (token : text) : result Z :=
  let int_id := default (-1) (_token_to_id enc !! token) in
  if int_id <? 0 then
    match _oov_bucket enc token with
    | None => raise (ValueError (text_of "Out of vocabulary token " ++ token))
    | Some int_id => ret int_id
    end
  else ret int_id.

(** [TokenTextEncoder.encode(s)]. *)
Definition encode (enc : TokenTextEncoder) (s : text) : result (list Z) :=
  for_each (encode_token enc) (tokenize isword (_tokenizer enc) s).

(** The body of the loop of [decode]: the token of one id. *)
Definition decode_id (enc : TokenTextEncoder) (int_id : Z) : result text :=
  if int_id <? Z.of_nat (length (_vocab_list enc))
  then py_index (_vocab_list enc) int_id
  else ret (_oov_token enc).

(** [TokenTextEncoder.decode(ids)]. *)
Definition decode (enc : TokenTextEncoder) (ids : list Z) : result text :=
  tokens <- for_each (decode_id enc) ids ;;
  ret (str_join (text_of " ") tokens).

(** [TokenTextEncoder.vocab_size]. *)
Definition vocab_size (enc : TokenTextEncoder) : Z :=
  Z.of_nat (length (_vocab_list enc)) + _oov_buckets enc.

End Encoder.

(** ** The vocabulary on file *)

Section Storage.

(** [tf.compat.as_bytes] on a [unicode] string: its UTF-8 encoding. *)
Variable as_bytes : text -> list Byte.byte.

(** [tf.compat.as_text] on bytes: UTF-8 decoding, where the bytes are
    UTF-8. *)
Variable as_text : list Byte.byte -> option text.

(** [TokenTextEncoder.tokens]: a copy of the vocabulary. *)
Definition tokens (enc : TokenTextEncoder) : list text := _vocab_list enc.

(** [TokenTextEncoder.store_to_file(fname)], on the files [fs], a map from
    names to the bytes held: the file [fname] is replaced. *)
Definition store_to_file (enc : TokenTextEncoder) (fname : text)
    (fs : gmap text (list Byte.byte)) : gmap text (list Byte.byte) :=
  <[fname := as_bytes (str_join [10%N] (_vocab_list enc))]> fs.

(** What [_load_tokens_from_file] reads in the files [fs]:
    [tf.compat.as_text(f.read())].  A file that is not UTF-8 is read like
    a missing one. *)
Definition read_text (fs : gmap text (list Byte.byte)) (fname : text)
  : option text :=
  fs !! fname ≫= as_text.

End Storage.

(** ** ByteTextEncoder *)

(** The exceptions of [ByteTextEncoder.decode]: the [ValueError] of
    [bytearray] on an integer outside [range(256)], and the
    [UnicodeDecodeError] of [tf.compat.as_text]. *)
Inductive byte_exn : Type :=
| ByteRangeError
| UnicodeDecodeError.

(** [bytearray(ids)] for a list of integers. *)
Fixpoint bytearray (ids : list Z) : option (list Byte.byte) :=
  match ids with
  | [] => Some []
  | i :: ids' =>
      if (0 <=? i) && (i <? 256) then
        match Byte.of_N (Z.to_N i), bytearray ids' with
        | Some b, Some bs => Some (b :: bs)
        | _, _ => None
        end
      else None
  end.

Section Bytes.

Variable as_bytes : text -> list Byte.byte.
Variable as_text : list Byte.byte -> option text.

(** [ByteTextEncoder.encode(s)]. *)
Definition byte_encode (s : text) : list Z :=
  (fun b => Z.of_N (Byte.to_N b)) <$> as_bytes s.

(** [ByteTextEncoder.decode(ids)]. *)
Definition byte_decode (ids : list Z) : byte_exn + text :=
  match bytearray ids with
  | None => inl ByteRangeError
  | Some bs =>
      match as_text bs with
      | None => inl UnicodeDecodeError
      | Some s => inr s
      end
  end.

(** [ByteTextEncoder.vocab_size]. *)
Definition byte_vocab_size : Z := 2 ^ 8.

End Bytes.

(** ** A concrete environment, for evaluating the definitions *)

(** [\w] on ASCII: letters, digits and the underscore. *)
Definition ascii_isword (c : char) : bool :=
  ((48 <=? c) && (c <=? 57) || (65 <=? c) && (c <=? 90)
   || (97 <=? c) && (c <=? 122) || (c =? 95))%N.

(** [str.isspace] on ASCII. *)
Definition ascii_isspace (c : char) : bool :=
  ((9 <=? c) && (c <=? 13) || (28 <=? c) && (c <=? 32))%N.

(** ASCII text is its own UTF-8 encoding. *)
Definition ascii_as_bytes (s : text) : list Byte.byte :=
  omap Byte.of_N s.

(** A stand-in for the digest: the sum of the bytes. *)
Definition sum_bytes (b : list Byte.byte) : Z :=
  foldr (fun x acc => Z.of_N (Byte.to_N x) + acc) 0 b.

(** ASCII bytes read back as text. *)
Definition ascii_as_text (b : list Byte.byte) : option text :=
  Some (Byte.to_N <$> b).

(** A file system without files. *)
Definition no_files (fname : text) : option text := None.

(** A file system with the one file [vocab.txt], of two lines. *)
Definition one_file (fname : text) : option text :=
  if decide (fname = text_of "vocab.txt")
  then Some (text_of "cat" ++ [10%N] ++ text_of "dog")
  else None.

(** ** Predicates of the statements *)

(** A token as the encoder's own tokenizer yields them: a non-empty run
    of word characters. *)
Definition word_token (isword : char -> bool) (t : text) : Prop :=
  t <> [] /\ forallb isword t = true.

(** No reserved token of [toks] fits at any position of [pre] when [pre]
    is followed by [rest]: the scan for reserved tokens crosses [pre]
    without a match. *)
Fixpoint unmatched (toks : list text) (pre rest : text) : bool :=
  match pre with
  | [] => true
  | c :: pre' =>
      negb (existsb (fun tok => startswith tok (pre ++ rest)) toks)
      && unmatched toks pre' rest
  end.

(** A token of one kind: word characters only, or none. *)
Definition homogeneous (isword : char -> bool) (t : text) : Prop :=
  forallb isword t = true \/ forallb (fun c => negb (isword c)) t = true.

(** What [decode] gives back for a token that went through [encode]: the
    token when the vocabulary has it, the OOV marker otherwise. *)
Definition known_or_oov (enc : TokenTextEncoder) (tok : text) : text :=
  if decide (tok ∈ _vocab_list enc) then tok else _oov_token enc.

(** Whether a token begins with a word character. *)
Definition starts_word (isword : char -> bool) (t : text) : bool :=
  match t with
  | [] => false
  | c :: _ => isword c
  end.

(** Neighbours in the list differ in that. *)
Fixpoint alternates (isword : char -> bool) (l : list text) : bool :=
  match l with
  | [] => true
  | a :: l' =>
      match l' with
      | [] => true
      | b :: _ => negb (eqb (starts_word isword a) (starts_word isword b))
      end && alternates isword l'
  end.

(** ** Facts about joining and splitting *)

Lemma str_join_nil (parts : list text) : str_join [] parts = concat parts.
Proof.
  induction parts as [|p ps IH]; [reflexivity|].
  destruct ps as [|q ps]; simpl in *.
  - by rewrite app_nil_r.
  - by rewrite IH.
Qed.

Lemma concat_filter_truthy (parts : list text) :
  concat (List.filter truthy parts) = concat parts.
Proof.
  induction parts as [|[|c p] ps IH]; simpl; [done|done|].
  by rewrite IH.
Qed.

Lemma startswith_app (tok rest : text) : startswith tok (tok ++ rest) = true.
Proof.
  induction tok as [|a tok IH]; simpl; [done|].
  by rewrite N.eqb_refl, IH.
Qed.

Lemma startswith_prefix (tok s : text) :
  startswith tok s = true <-> exists rest, s = tok ++ rest.
Proof.
  split.
  - revert s. induction tok as [|a tok IH]; intros s H; simpl in *.
    + by exists s.
    + destruct s as [|b s]; [done|].
      apply andb_prop in H as [Hab H].
      apply N.eqb_eq in Hab as ->.
      destruct (IH _ H) as [rest ->]. by exists rest.
  - intros [rest ->]. apply startswith_app.
Qed.

Section RegexFacts.

Variable isword : char -> bool.

Lemma nonword_run_le (s : text) : (nonword_run isword s <= length s)%nat.
Proof. induction s as [|c s IH]; simpl; [lia|]. destruct (isword c); simpl; lia. Qed.

(** A run of non-word characters only is matched whole. *)
Lemma nonword_run_all (s : text) :
  forallb (fun c => negb (isword c)) s = true ->
  nonword_run isword s = length s.
Proof.
  induction s as [|c s IH]; simpl; [done|].
  intros [Hc Hs]%andb_prop. destruct (isword c); [done|].
  by rewrite IH.
Qed.

(** The equations of the scan, by what the pattern does at the head. *)
Lemma re_split_from_match (p : pattern) (c : char) (s' cur : text) (n : nat) :
  match_at isword p (c :: s') = Some (S n) ->
  re_split_from isword p (c :: s') cur =
  cur :: (if captures p then [take (S n) (c :: s')] else [])
      ++ re_split_from isword p (drop n s') [].
Proof. intros Heq. simp re_split_from. by rewrite Heq. Qed.

Lemma re_split_from_skip (p : pattern) (c : char) (s' cur : text) :
  match_at isword p (c :: s') = None ->
  re_split_from isword p (c :: s') cur =
  re_split_from isword p s' (cur ++ [c]).
Proof. intros Heq. simp re_split_from. by rewrite Heq. Qed.

(** Under a capturing group nothing is lost: the pieces, in order, are
    the text. *)
Lemma re_split_from_concat (p : pattern) (s cur : text) :
  captures p = true ->
  concat (re_split_from isword p s cur) = cur ++ s.
Proof.
  funelim (re_split_from isword p s cur); intros Hcap.
  - simpl. by rewrite !app_nil_r.
  - rewrite H by done. by rewrite <- app_assoc.
  - rewrite Hcap. simpl. rewrite H by done. simpl. by rewrite take_drop.
  - rewrite H by done. by rewrite <- app_assoc.
Qed.

Lemma re_split_concat (p : pattern) (s : text) :
  captures p = true -> concat (re_split isword p s) = s.
Proof. intros Hcap. unfold re_split. by rewrite re_split_from_concat. Qed.

End RegexFacts.

(** ** The Tokenizer without reserved tokens *)

Section TokenizerFacts.

Variable isword : char -> bool.

(** Without reserved tokens, the tokens are the non-empty pieces of the
    split on [\W+]. *)
Lemma tokenize_plain (alphanum_only : bool) (reserved : option (list text))
    (s : text) :
  default [] reserved = [] ->
  tokenize isword (Tokenizer_init alphanum_only reserved) s =
  List.filter truthy (re_split isword (NonWordRun (negb alphanum_only)) s).
Proof.
  intros Hres. unfold tokenize, Tokenizer_init. rewrite Hres. simpl.
  destruct (decide ((∅ : gset text) = ∅)) as [_|Hne]; [|done]. simpl.
  destruct (decide (s ∈ (∅ : gset text))) as [Hin|_]; [set_solver|].
  rewrite app_nil_r. by destruct alphanum_only.
Qed.

(** A text without word characters has no alphanumeric token. *)
Lemma tokenize_nonword (s : text) :
  forallb (fun c => negb (isword c)) s = true ->
  tokenize isword (Tokenizer_init true None) s = [].
Proof.
  intros Hs. rewrite tokenize_plain by done. unfold re_split. simpl.
  destruct s as [|c s']; [by simp re_split_from|].
  rewrite (re_split_from_match isword _ c s' [] (length s')).
  - simpl. rewrite drop_all. by simp re_split_from.
  - unfold match_at. by rewrite (nonword_run_all isword (c :: s') Hs).
Qed.

End TokenizerFacts.

(** C1. Round-trip invertibility: with [alphanum_only=False] and no
    reserved tokens (the argument left at [None], or an empty list),
    joining the tokens of any string gives the string back. *)
Theorem join_tokenize_roundtrip (isword : char -> bool) (s : text) :
  join (Tokenizer_init false None)
       (tokenize isword (Tokenizer_init false None) s) = s
  /\ join (Tokenizer_init false (Some []))
          (tokenize isword (Tokenizer_init false (Some [])) s) = s.
Proof.
  split; unfold join; simpl;
    rewrite tokenize_plain by done;
    rewrite str_join_nil, concat_filter_truthy;
    by apply re_split_concat.
Qed.

(** ** Reserved tokens *)

Section ReservedFacts.

Variable isword : char -> bool.

Lemma find_existsb_false {A} (f : A -> bool) (l : list A) :
  existsb f l = false -> List.find f l = None.
Proof.
  induction l as [|a l IH]; simpl; [done|].
  intros [-> Hl]%orb_false_elim. auto.
Qed.

(** The scan crosses a stretch where no reserved token fits. *)
Lemma re_split_from_unmatched (toks : list text) (pre rest cur : text) :
  unmatched toks pre rest = true ->
  re_split_from isword (Alternation toks) (pre ++ rest) cur =
  re_split_from isword (Alternation toks) rest (cur ++ pre).
Proof.
  revert cur. induction pre as [|c pre IH]; intros cur Hun; simpl.
  - by rewrite app_nil_r.
  - simpl in Hun. apply andb_prop in Hun as [Hc Hun].
    apply negb_true_iff, find_existsb_false in Hc.
    rewrite re_split_from_skip by (simpl in *; by rewrite Hc).
    rewrite IH by done. by rewrite <- app_assoc.
Qed.

(** Where the first alternative that fits is [r], the scan emits the
    piece read so far, then [r], and goes on after [r]. *)
Lemma re_split_from_reserved (toks : list text) (r post cur : text) :
  r <> [] ->
  List.find (fun tok => startswith tok (r ++ post)) toks = Some r ->
  re_split_from isword (Alternation toks) (r ++ post) cur =
  cur :: r :: re_split isword (Alternation toks) post.
Proof.
  intros Hr Hfind. destruct r as [|c r']; [done|]. simpl.
  rewrite (re_split_from_match isword _ c (r' ++ post) cur (length r')).
  - simpl. by rewrite take_app_length, drop_app_length.
  - simpl in *. by rewrite Hfind.
Qed.

Lemma re_split_reserved (toks : list text) (r pre post : text) :
  r <> [] ->
  unmatched toks pre (r ++ post) = true ->
  List.find (fun tok => startswith tok (r ++ post)) toks = Some r ->
  re_split isword (Alternation toks) (pre ++ r ++ post) =
  pre :: r :: re_split isword (Alternation toks) post.
Proof.
  intros Hr Hun Hfind. unfold re_split at 1.
  by rewrite re_split_from_unmatched, re_split_from_reserved.
Qed.

Lemma unmatched_not_reserved (toks : list text) (pre rest : text) :
  pre <> [] -> unmatched toks pre rest = true -> pre ∉ toks.
Proof.
  intros Hpre Hun Hin. destruct pre as [|c pre']; [done|].
  simpl in Hun. apply andb_prop in Hun as [Hc _].
  apply negb_true_iff in Hc.
  assert (existsb (fun tok => startswith tok ((c :: pre') ++ rest)) toks = true)
    as Hex; [|simpl in Hex; congruence].
  apply existsb_exists. exists (c :: pre'). split.
  - by apply list_elem_of_In.
  - apply startswith_app.
Qed.

End ReservedFacts.

(** C8, as amended. Reserved-token atomicity along the scan: let the
    reserved tokens be non-empty and free of regex metacharacters, and let
    [r] stand in [pre ++ r ++ post] where the left-to-right scan finds it:
    no reserved token fits at any position of [pre], and [r] is the first
    listed reserved token that fits after [pre].  Then [r] is one token of
    the output, between the plain tokens of [pre] and the tokens of
    [post], whatever characters surround it. *)
Theorem reserved_token_atomic (isword : char -> bool) (alphanum_only : bool)
    (toks : list text) (r pre post : text) :
  Forall regex_literal toks ->
  unmatched toks pre (r ++ post) = true ->
  List.find (fun tok => startswith tok (r ++ post)) toks = Some r ->
  let t := Tokenizer_init alphanum_only (Some toks) in
  tokenize isword t (pre ++ r ++ post) =
    tokenize isword (Tokenizer_init alphanum_only None) pre
    ++ r :: tokenize isword t post
  /\ r ∈ tokenize isword t (pre ++ r ++ post).
Proof.
  intros Hlit Hun Hfind t.
  assert (r ∈ toks) as Hin.
  { apply list_elem_of_In. by apply find_some in Hfind as [? _]. }
  assert (r <> []) as Hr.
  { rewrite Forall_forall in Hlit. by destruct (Hlit r Hin). }
  assert (pre ∉ toks) as Hpre.
  { destruct pre as [|c pre'].
    - intros Hnil. rewrite Forall_forall in Hlit. by destruct (Hlit [] Hnil).
    - by eapply unmatched_not_reserved. }
  assert (tokenize isword t (pre ++ r ++ post) =
          tokenize isword (Tokenizer_init alphanum_only None) pre
          ++ r :: tokenize isword t post) as Heq.
  { rewrite (tokenize_plain isword alphanum_only None pre) by done.
    unfold tokenize, t, Tokenizer_init. simpl.
    destruct (decide ((list_to_set toks : gset text) = ∅)) as [He|_];
      [set_solver|].
    rewrite (re_split_reserved isword toks r pre post) by done.
    simpl.
    destruct (decide (pre ∈ (list_to_set toks : gset text))) as [Hp|_];
      [set_solver|].
    destruct (decide (r ∈ (list_to_set toks : gset text))) as [_|Hn];
      [|set_solver].
    rewrite !List.filter_app. simpl.
    destruct r as [|c r']; [done|]. simpl.
    by destruct alphanum_only. }
  split; [done|]. rewrite Heq. set_solver.
Qed.

(** The theorem at [hi<EOS>there], with [<EOS>] and [<PAD>] reserved. *)
Lemma reserved_token_atomic_witness :
  let toks := [text_of "<EOS>"; text_of "<PAD>"] in
  let t := Tokenizer_init true (Some toks) in
  tokenize ascii_isword t (text_of "hi" ++ text_of "<EOS>" ++ text_of "there") =
    tokenize ascii_isword (Tokenizer_init true None) (text_of "hi")
    ++ text_of "<EOS>" :: tokenize ascii_isword t (text_of "there")
  /\ text_of "<EOS>"
       ∈ tokenize ascii_isword t
           (text_of "hi" ++ text_of "<EOS>" ++ text_of "there").
Proof.
  apply (reserved_token_atomic ascii_isword true
           [text_of "<EOS>"; text_of "<PAD>"]
           (text_of "<EOS>") (text_of "hi") (text_of "there")).
  - repeat constructor; vm_compute; congruence.
  - vm_compute. reflexivity.
  - vm_compute. reflexivity.
Defined.

(** C8, as stated, fails where reserved tokens overlap: with [ab] and [bc]
    reserved, [bc] occurs in [abc] next to the letter [a], and the tokens
    are [ab] and [c]. *)
Lemma reserved_token_overlap_counterexample :
  let toks := [text_of "ab"; text_of "bc"] in
  let t := Tokenizer_init true (Some toks) in
  text_of "bc" ∈ toks
  /\ text_of "abc" = text_of "a" ++ text_of "bc" ++ []
  /\ tokenize ascii_isword t (text_of "abc") = [text_of "ab"; text_of "c"]
  /\ text_of "bc" ∉ tokenize ascii_isword t (text_of "abc").
Proof.
  assert (tokenize ascii_isword
            (Tokenizer_init true (Some [text_of "ab"; text_of "bc"]))
            (text_of "abc") = [text_of "ab"; text_of "c"]) as Heq
    by (vm_compute; reflexivity).
  simpl. rewrite Heq. repeat split.
  - set_solver.
  - intros Hin. apply list_elem_of_In in Hin. simpl in Hin.
    destruct Hin as [H|[H|[]]]; vm_compute in H; congruence.
Qed.

(** ** The dictionary of the vocabulary *)

Lemma range_snoc (n : nat) : range (S n) = range n ++ [Z.of_nat n].
Proof. unfold range. by rewrite seq_S, fmap_app. Qed.

Lemma length_range (n : nat) : length (range n) = n.
Proof. unfold range. by rewrite length_fmap, length_seq. Qed.

(** One more token at the end of the list takes the next index, and
    replaces the index of an equal token before it. *)
Lemma dict_zip_snoc (l : list text) (x : text) :
  dict (zip (l ++ [x]) (range (length (l ++ [x])))) =
  <[x := Z.of_nat (length l)]> (dict (zip l (range (length l)))).
Proof.
  rewrite length_app. simpl. rewrite Nat.add_1_r, range_snoc.
  rewrite zip_with_app by (by rewrite length_range).
  unfold dict. by rewrite foldl_app.
Qed.

(** A token of the list is mapped to its last position. *)
Lemma dict_zip_lookup_elem (l : list text) (t : text) :
  t ∈ l ->
  exists k : nat,
    dict (zip l (range (length l))) !! t = Some (Z.of_nat k)
    /\ l !! k = Some t
    /\ forall m : nat, l !! m = Some t -> (m <= k)%nat.
Proof.
  induction l as [|x l IH] using rev_ind; intros Hin; [by inversion Hin|].
  rewrite dict_zip_snoc.
  destruct (decide (x = t)) as [->|Hne].
  - exists (length l). rewrite lookup_insert_eq. split_and!; [done| |].
    + by rewrite lookup_app_r, Nat.sub_diag.
    + intros m Hm. apply lookup_lt_Some in Hm.
      rewrite length_app in Hm. simpl in Hm. lia.
  - rewrite lookup_insert_ne by done.
    assert (t ∈ l) as Hl.
    { apply elem_of_app in Hin as [Hl|Hx]; [done|].
      by apply list_elem_of_singleton in Hx. }
    destruct (IH Hl) as (k & Hk & Hlk & Hmax).
    exists k. split_and!; [done| |].
    + by apply lookup_app_l_Some.
    + intros m Hm. apply Hmax.
      destruct (decide (m < length l)%nat) as [Hlt|Hge].
      * by rewrite lookup_app_l in Hm.
      * rewrite lookup_app_r in Hm by lia.
        destruct (m - length l)%nat; simpl in Hm; [congruence|done].
Qed.

(** A token that is not in the list is not a key. *)
Lemma dict_zip_lookup_None (l : list text) (t : text) :
  t ∉ l -> dict (zip l (range (length l))) !! t = None.
Proof.
  induction l as [|x l IH] using rev_ind; intros Hin; [done|].
  rewrite dict_zip_snoc, lookup_insert_ne by set_solver.
  apply IH. set_solver.
Qed.

(** ** Indexing *)

Lemma py_index_nat {A} (l : list A) (k : nat) (x : A) :
  l !! k = Some x -> py_index l (Z.of_nat k) = inr x.
Proof.
  intros Hk. unfold py_index.
  rewrite (proj2 (Z.ltb_ge (Z.of_nat k) 0)) by lia.
  rewrite (proj2 (Z.ltb_ge (Z.of_nat k) 0)) by lia.
  by rewrite Nat2Z.id, Hk.
Qed.

(** A negative index down to [-len(l)] counts from the end. *)
Lemma py_index_neg {A} (l : list A) (i : Z) :
  - Z.of_nat (length l) <= i < 0 ->
  exists x, l !! Z.to_nat (i + Z.of_nat (length l)) = Some x
            /\ py_index l i = inr x.
Proof.
  intros Hi. unfold py_index.
  rewrite (proj2 (Z.ltb_lt i 0)) by lia.
  rewrite (proj2 (Z.ltb_ge (i + Z.of_nat (length l)) 0)) by lia.
  destruct (lookup_lt_is_Some_2 l (Z.to_nat (i + Z.of_nat (length l))))
    as [x Hx]; [lia|].
  exists x. by rewrite Hx.
Qed.

(** Below [-len(l)] there is no element. *)
Lemma py_index_below {A} (l : list A) (i : Z) :
  i < - Z.of_nat (length l) -> py_index l i = inl IndexError.
Proof.
  intros Hi. unfold py_index.
  rewrite (proj2 (Z.ltb_lt i 0)) by lia.
  by rewrite (proj2 (Z.ltb_lt (i + Z.of_nat (length l)) 0)) by lia.
Qed.

(** ** Loops *)

Lemma for_each_inr {A B} (f : A -> result B) (l : list A) (bs : list B) :
  for_each f l = inr bs <-> Forall2 (fun a b => f a = inr b) l bs.
Proof.
  revert bs. induction l as [|a l IH]; intros bs; simpl.
  - split; [intros [= <-]; constructor | by inversion 1].
  - split.
    + destruct (f a) as [e|b] eqn:Hfa; simpl; [done|].
      destruct (for_each f l) as [e|bs'] eqn:Hl; simpl; [done|].
      intros [= <-]. constructor; [done|]. by apply IH.
    + inversion 1 as [|? b ? bs' Hfa Hrest]; subst.
      rewrite Hfa. simpl. apply IH in Hrest. by rewrite Hrest.
Qed.

Lemma for_each_total {A B} (f : A -> result B) (l : list A) :
  (forall a, a ∈ l -> exists b, f a = inr b) ->
  exists bs, for_each f l = inr bs /\ length bs = length l.
Proof.
  induction l as [|a l IH]; intros Hf; simpl; [by exists []|].
  destruct (Hf a) as [b Hb]; [set_solver|].
  destruct IH as (bs & Hbs & Hlen); [intros; apply Hf; set_solver|].
  exists (b :: bs). rewrite Hb, Hbs. simpl. by rewrite Hlen.
Qed.

(** ** The encoder *)

Section EncoderFacts.

Variable isword : char -> bool.
Variable isspace : char -> bool.
Variable as_bytes : text -> list Byte.byte.
Variable md5 : list Byte.byte -> Z.
Variable gfile : text -> option text.

(** What [__init__] leaves in the object. *)
Lemma init_inr vocab_list vocab_file oov_buckets oov_token enc :
  TokenTextEncoder_init isspace gfile vocab_list vocab_file oov_buckets
    oov_token = inr enc ->
  _token_to_id enc =
    dict (zip (_vocab_list enc) (range (length (_vocab_list enc))))
  /\ _oov_buckets enc = oov_buckets
  /\ _oov_token enc = oov_token
  /\ _tokenizer enc = Tokenizer_init true None.
Proof.
  unfold TokenTextEncoder_init.
  destruct (negb _ || _); [done|].
  destruct (if truthy_opt vocab_list then _ else _) as [e|els]; [done|].
  simpl. by intros [= <-].
Qed.

(** The scan for [\W+] crosses word characters without a match. *)
Lemma re_split_from_words (capture : bool) (s cur : text) :
  forallb isword s = true ->
  re_split_from isword (NonWordRun capture) s cur = [cur ++ s].
Proof.
  revert cur. induction s as [|c s IH]; intros cur Hs.
  - simp re_split_from. by rewrite app_nil_r.
  - simpl in Hs. apply andb_prop in Hs as [Hc Hs].
    rewrite re_split_from_skip by (simpl; by rewrite Hc).
    rewrite IH by done. by rewrite <- app_assoc.
Qed.

(** A word is its own and only token. *)
Lemma tokenize_word_token (t : text) :
  word_token isword t ->
  tokenize isword (Tokenizer_init true None) t = [t].
Proof.
  intros [Hne Hw]. rewrite tokenize_plain by done.
  unfold re_split. rewrite re_split_from_words by done.
  by destruct t.
Qed.

Lemma encode_word_token enc (t : text) :
  _tokenizer enc = Tokenizer_init true None ->
  word_token isword t ->
  encode isword as_bytes md5 enc t = (id <- encode_token as_bytes md5 enc t ;; ret [id]).
Proof.
  intros Htok Hw. unfold encode. rewrite Htok, tokenize_word_token by done.
  simpl. by destruct (encode_token as_bytes md5 enc t).
Qed.

(** A token of the vocabulary gets the index of its last occurrence. *)
Lemma encode_token_elem enc (t : text) :
  _token_to_id enc =
    dict (zip (_vocab_list enc) (range (length (_vocab_list enc)))) ->
  t ∈ _vocab_list enc ->
  exists k : nat,
    encode_token as_bytes md5 enc t = inr (Z.of_nat k)
    /\ _vocab_list enc !! k = Some t
    /\ forall m : nat, _vocab_list enc !! m = Some t -> (m <= k)%nat.
Proof.
  intros Hdict Hin.
  destruct (dict_zip_lookup_elem _ _ Hin) as (k & Hk & Hlk & Hmax).
  exists k. split_and!; [|done..].
  unfold encode_token. rewrite Hdict, Hk. simpl.
  destruct (Z.ltb_spec (Z.of_nat k) 0); [lia|done].
Qed.

(** A token outside the vocabulary goes to [_oov_bucket]. *)
Lemma encode_token_oov enc (t : text) :
  _token_to_id enc =
    dict (zip (_vocab_list enc) (range (length (_vocab_list enc)))) ->
  t ∉ _vocab_list enc ->
  encode_token as_bytes md5 enc t =
  match _oov_bucket as_bytes md5 enc t with
  | None => raise (ValueError (text_of "Out of vocabulary token " ++ t))
  | Some int_id => ret int_id
  end.
Proof.
  intros Hdict Hin. unfold encode_token.
  by rewrite Hdict, dict_zip_lookup_None.
Qed.

(** [decode] of one id in the vocabulary. *)
Lemma decode_vocab enc (k : nat) (t : text) :
  _vocab_list enc !! k = Some t ->
  decode enc [Z.of_nat k] = inr t.
Proof.
  intros Hk. pose proof (lookup_lt_Some _ _ _ Hk) as Hlt.
  unfold decode, decode_id. simpl.
  rewrite (proj2 (Z.ltb_lt _ _)) by lia.
  by rewrite (py_index_nat _ _ _ Hk).
Qed.

End EncoderFacts.

(** ** In-vocabulary tokens *)

(** C2, as amended. In-vocabulary fidelity at the last occurrence: for a
    token [t] of the vocabulary at index [i] that does not occur again
    after [i], the loop of [encode] gives [t] the id [i], and [decode] of
    [i] is [t]; when [t] is moreover a non-empty run of word characters,
    [encode(t)] is the list [[i]] and [decode(encode(t))] is [t]. *)
Theorem encode_decode_in_vocab (isword isspace : char -> bool)
    (as_bytes : text -> list Byte.byte) (md5 : list Byte.byte -> Z)
    (gfile : text -> option text)
    (vocab_list : option (list text)) (vocab_file : option text)
    (oov_buckets : Z) (oov_token : text)
    (enc : TokenTextEncoder) (t : text) (i : nat) :
  TokenTextEncoder_init isspace gfile vocab_list vocab_file oov_buckets
    oov_token = inr enc ->
  _vocab_list enc !! i = Some t ->
  t ∉ drop (S i) (_vocab_list enc) ->
  encode_token as_bytes md5 enc t = inr (Z.of_nat i)
  /\ decode enc [Z.of_nat i] = inr t
  /\ (word_token isword t ->
      encode isword as_bytes md5 enc t = inr [Z.of_nat i]
      /\ (ids <- encode isword as_bytes md5 enc t ;; decode enc ids) = inr t).
Proof.
  intros Hinit Hi Hlast.
  apply init_inr in Hinit as (Hdict & _ & _ & Htok).
  assert (t ∈ _vocab_list enc) as Hin by (by eapply list_elem_of_lookup_2).
  destruct (encode_token_elem as_bytes md5 enc t Hdict Hin)
    as (k & Hk & Hlk & Hmax).
  assert (k = i) as ->.
  { pose proof (Hmax i Hi) as Hle.
    destruct (decide (k = i)) as [|Hne]; [done|]. exfalso. apply Hlast.
    apply list_elem_of_lookup. exists (k - S i)%nat.
    rewrite lookup_drop. by replace (S i + (k - S i))%nat with k by lia. }
  pose proof (decode_vocab enc i t Hi) as Hdec.
  split_and!; [done..|].
  intros Hw. rewrite (encode_word_token isword as_bytes md5 enc t Htok Hw).
  rewrite Hk. simpl. split; [done|]. apply Hdec.
Qed.

(** The theorem at the vocabulary [cat, dog, fish] and the token [dog]. *)
Lemma encode_decode_in_vocab_witness :
  exists enc,
    TokenTextEncoder_init ascii_isspace no_files
      (Some [text_of "cat"; text_of "dog"; text_of "fish"]) None 1
      (text_of "UNK") = inr enc
    /\ _vocab_list enc !! 1%nat = Some (text_of "dog")
    /\ (text_of "dog" ∉ drop 2 (_vocab_list enc))
    /\ encode_token ascii_as_bytes sum_bytes enc (text_of "dog") = inr 1
    /\ decode enc [1] = inr (text_of "dog")
    /\ (word_token ascii_isword (text_of "dog") ->
        encode ascii_isword ascii_as_bytes sum_bytes enc (text_of "dog")
        = inr [1]
        /\ (ids <- encode ascii_isword ascii_as_bytes sum_bytes enc
                     (text_of "dog") ;;
            decode enc ids) = inr (text_of "dog")).
Proof.
  eexists. split; [reflexivity|].
  split; [reflexivity|].
  split; [apply (bool_decide_unpack _); vm_compute; exact I|].
  eapply (encode_decode_in_vocab ascii_isword ascii_isspace ascii_as_bytes
            sum_bytes no_files
            (Some [text_of "cat"; text_of "dog"; text_of "fish"]) None 1
            (text_of "UNK") _ (text_of "dog") 1%nat).
  - reflexivity.
  - reflexivity.
  - apply (bool_decide_unpack _). vm_compute. exact I.
Defined.

(** C2, as stated, fails on a vocabulary with a repeated token: in
    [a, b, a] the token [a] is present at index [0], and its id is [2]. *)
Lemma encode_in_vocab_counterexample :
  exists enc,
    TokenTextEncoder_init ascii_isspace no_files
      (Some [text_of "a"; text_of "b"; text_of "a"]) None 1
      (text_of "UNK") = inr enc
    /\ _vocab_list enc !! 0%nat = Some (text_of "a")
    /\ encode_token ascii_as_bytes sum_bytes enc (text_of "a") = inr 2
    /\ encode_token ascii_as_bytes sum_bytes enc (text_of "a") <> inr 0
    /\ encode ascii_isword ascii_as_bytes sum_bytes enc (text_of "a")
       = inr [2].
Proof.
  eexists. split; [reflexivity|]. split_and!.
  - reflexivity.
  - vm_compute. reflexivity.
  - vm_compute. discriminate.
  - vm_compute. reflexivity.
Qed.

(** C9, as amended. Last occurrence wins: when the vocabulary holds the
    token [t] at two distinct positions, the loop of [encode] resolves [t]
    to one index [k], the position of the last occurrence of [t] (no
    occurrence of [t] lies after [k], so [k] is not the first one), and
    [decode] of [k] is [t]. *)
Theorem duplicate_token_last_wins (isspace : char -> bool)
    (as_bytes : text -> list Byte.byte) (md5 : list Byte.byte -> Z)
    (gfile : text -> option text)
    (vocab_list : option (list text)) (vocab_file : option text)
    (oov_buckets : Z) (oov_token : text)
    (enc : TokenTextEncoder) (t : text) (i j : nat) :
  TokenTextEncoder_init isspace gfile vocab_list vocab_file oov_buckets
    oov_token = inr enc ->
  i <> j ->
  _vocab_list enc !! i = Some t ->
  _vocab_list enc !! j = Some t ->
  exists k : nat,
    encode_token as_bytes md5 enc t = inr (Z.of_nat k)
    /\ _vocab_list enc !! k = Some t
    /\ (forall m : nat, _vocab_list enc !! m = Some t -> (m <= k)%nat)
    /\ (Nat.min i j < k)%nat
    /\ decode enc [Z.of_nat k] = inr t.
Proof.
  intros Hinit Hij Hi Hj.
  apply init_inr in Hinit as (Hdict & _ & _ & _).
  assert (t ∈ _vocab_list enc) as Hin by (by eapply list_elem_of_lookup_2).
  destruct (encode_token_elem as_bytes md5 enc t Hdict Hin)
    as (k & Hk & Hlk & Hmax).
  exists k. split_and!; [done..| |by apply decode_vocab].
  pose proof (Hmax i Hi). pose proof (Hmax j Hj). lia.
Qed.

(** The theorem at the vocabulary [x, y, x, z] and the token [x]. *)
Lemma duplicate_token_last_wins_witness :
  exists enc,
    TokenTextEncoder_init ascii_isspace no_files
      (Some [text_of "x"; text_of "y"; text_of "x"; text_of "z"]) None 1
      (text_of "UNK") = inr enc
    /\ exists k : nat,
         encode_token ascii_as_bytes sum_bytes enc (text_of "x")
         = inr (Z.of_nat k)
         /\ _vocab_list enc !! k = Some (text_of "x")
         /\ (forall m : nat,
               _vocab_list enc !! m = Some (text_of "x") -> (m <= k)%nat)
         /\ (Nat.min 0 2 < k)%nat
         /\ decode enc [Z.of_nat k] = inr (text_of "x").
Proof.
  eexists. split; [reflexivity|].
  apply (duplicate_token_last_wins ascii_isspace ascii_as_bytes sum_bytes
           no_files
           (Some [text_of "x"; text_of "y"; text_of "x"; text_of "z"]) None 1
           (text_of "UNK") _ (text_of "x") 0%nat 2%nat).
  - reflexivity.
  - discriminate.
  - reflexivity.
  - reflexivity.
Defined.

(** C9, as stated, fails: in [the, cat, the] the first occurrence of
    [the] is at index [0], and [encode] resolves it to [2]. *)
Lemma first_occurrence_counterexample :
  exists enc,
    TokenTextEncoder_init ascii_isspace no_files
      (Some [text_of "the"; text_of "cat"; text_of "the"]) None 1
      (text_of "UNK") = inr enc
    /\ _vocab_list enc !! 0%nat = Some (text_of "the")
    /\ _vocab_list enc !! 2%nat = Some (text_of "the")
    /\ encode ascii_isword ascii_as_bytes sum_bytes enc (text_of "the")
       = inr [2]
    /\ encode ascii_isword ascii_as_bytes sum_bytes enc (text_of "the")
       <> inr [0].
Proof.
  eexists. split; [reflexivity|]. split_and!.
  - reflexivity.
  - reflexivity.
  - vm_compute. reflexivity.
  - vm_compute. discriminate.
Qed.

(** ** Out-of-vocabulary tokens *)

(** C3. OOV range containment: for a token [t] outside the vocabulary and
    [B > 0] buckets, the loop of [encode] gives [t] an id in [[V, V+B)]:
    [V] when [B = 1], and [V] plus the MD5 digest of the UTF-8 bytes of
    [t] modulo [B] when [B > 1]; when [t] is a non-empty run of word
    characters, [encode(t)] is the list of that one id. *)
Theorem encode_oov_in_range (isword isspace : char -> bool)
    (as_bytes : text -> list Byte.byte) (md5 : list Byte.byte -> Z)
    (gfile : text -> option text)
    (vocab_list : option (list text)) (vocab_file : option text)
    (B : Z) (oov_token : text) (enc : TokenTextEncoder) (t : text) :
  TokenTextEncoder_init isspace gfile vocab_list vocab_file B oov_token
    = inr enc ->
  t ∉ _vocab_list enc ->
  0 < B ->
  let V := Z.of_nat (length (_vocab_list enc)) in
  exists id : Z,
    encode_token as_bytes md5 enc t = inr id
    /\ V <= id < V + B
    /\ (B = 1 -> id = V)
    /\ (1 < B -> id = V + md5 (as_bytes t) `mod` B)
    /\ (word_token isword t ->
        encode isword as_bytes md5 enc t = inr [id]).
Proof.
  intros Hinit Hnot HB V.
  apply init_inr in Hinit as (Hdict & HBenc & _ & Htok).
  pose proof (encode_token_oov as_bytes md5 enc t Hdict Hnot) as Henc.
  unfold _oov_bucket in Henc. rewrite HBenc in Henc.
  rewrite (proj2 (Z.leb_gt B 0)) in Henc by done.
  destruct (Z.eqb_spec B 1) as [->|HB1].
  - exists V. split; [done|]. split; [lia|]. split; [done|]. split; [lia|].
    intros Hw. rewrite (encode_word_token isword as_bytes md5 enc t Htok Hw).
    by rewrite Henc.
  - exists (V + md5 (as_bytes t) `mod` B).
    pose proof (Z.mod_pos_bound (md5 (as_bytes t)) B HB).
    split; [done|]. split; [lia|]. split; [lia|]. split; [done|].
    intros Hw. rewrite (encode_word_token isword as_bytes md5 enc t Htok Hw).
    by rewrite Henc.
Qed.

(** The theorem at the vocabulary [cat, dog, fish], five buckets and the
    token [bird]. *)
Lemma encode_oov_in_range_witness :
  exists enc,
    TokenTextEncoder_init ascii_isspace no_files
      (Some [text_of "cat"; text_of "dog"; text_of "fish"]) None 5
      (text_of "UNK") = inr enc
    /\ (text_of "bird" ∉ _vocab_list enc)
    /\ 0 < 5
    /\ let V := Z.of_nat (length (_vocab_list enc)) in
       exists id : Z,
         encode_token ascii_as_bytes sum_bytes enc (text_of "bird") = inr id
         /\ V <= id < V + 5
         /\ (5 = 1 -> id = V)
         /\ (1 < 5 ->
             id = V + sum_bytes (ascii_as_bytes (text_of "bird")) `mod` 5)
         /\ (word_token ascii_isword (text_of "bird") ->
             encode ascii_isword ascii_as_bytes sum_bytes enc (text_of "bird")
             = inr [id]).
Proof.
  eexists. split; [reflexivity|].
  split; [apply (bool_decide_unpack _); vm_compute; exact I|].
  split; [lia|].
  eapply (encode_oov_in_range ascii_isword ascii_isspace ascii_as_bytes
            sum_bytes no_files
            (Some [text_of "cat"; text_of "dog"; text_of "fish"]) None 5
            (text_of "UNK") _ (text_of "bird")).
  - reflexivity.
  - apply (bool_decide_unpack _). vm_compute. exact I.
  - lia.
Defined.

(** C6. With no bucket ([B = 0]), the loop of [encode] raises on a token
    [t] outside the vocabulary, and the message ends with [t]; so does
    [encode(t)] when [t] is a non-empty run of word characters. *)
Theorem encode_oov_raises (isword isspace : char -> bool)
    (as_bytes : text -> list Byte.byte) (md5 : list Byte.byte -> Z)
    (gfile : text -> option text)
    (vocab_list : option (list text)) (vocab_file : option text)
    (B : Z) (oov_token : text) (enc : TokenTextEncoder) (t : text) :
  TokenTextEncoder_init isspace gfile vocab_list vocab_file B oov_token
    = inr enc ->
  t ∉ _vocab_list enc ->
  B = 0 ->
  let err := ValueError (text_of "Out of vocabulary token " ++ t) in
  encode_token as_bytes md5 enc t = inl err
  /\ (word_token isword t -> encode isword as_bytes md5 enc t = inl err).
Proof.
  intros Hinit Hnot -> err.
  apply init_inr in Hinit as (Hdict & HBenc & _ & Htok).
  pose proof (encode_token_oov as_bytes md5 enc t Hdict Hnot) as Henc.
  unfold _oov_bucket in Henc. rewrite HBenc in Henc. simpl in Henc.
  split; [done|].
  intros Hw. rewrite (encode_word_token isword as_bytes md5 enc t Htok Hw).
  by rewrite Henc.
Qed.

(** The theorem at the vocabulary [cat, dog, fish], no bucket and the
    token [bird]. *)
Lemma encode_oov_raises_witness :
  exists enc,
    TokenTextEncoder_init ascii_isspace no_files
      (Some [text_of "cat"; text_of "dog"; text_of "fish"]) None 0
      (text_of "UNK") = inr enc
    /\ (text_of "bird" ∉ _vocab_list enc)
    /\ encode_token ascii_as_bytes sum_bytes enc (text_of "bird")
       = inl (ValueError (text_of "Out of vocabulary token bird"))
    /\ (word_token ascii_isword (text_of "bird") ->
        encode ascii_isword ascii_as_bytes sum_bytes enc (text_of "bird")
        = inl (ValueError (text_of "Out of vocabulary token bird"))).
Proof.
  eexists. split; [reflexivity|].
  split; [apply (bool_decide_unpack _); vm_compute; exact I|].
  eapply (encode_oov_raises ascii_isword ascii_isspace ascii_as_bytes
            sum_bytes no_files
            (Some [text_of "cat"; text_of "dog"; text_of "fish"]) None 0
            (text_of "UNK") _ (text_of "bird")).
  - reflexivity.
  - apply (bool_decide_unpack _). vm_compute. exact I.
  - reflexivity.
Defined.

(** ** Decoding *)

(** [decode] of one id at or above the vocabulary length. *)
Lemma decode_oov (enc : TokenTextEncoder) (id : Z) :
  Z.of_nat (length (_vocab_list enc)) <= id ->
  decode enc [id] = inr (_oov_token enc).
Proof.
  intros Hid. unfold decode, decode_id. simpl.
  by rewrite (proj2 (Z.ltb_ge _ _)) by lia.
Qed.

(** [decode] of one negative id: Python's indexing counts from the end of
    the vocabulary. *)
Lemma decode_negative_wraps (enc : TokenTextEncoder) (id : Z) :
  - Z.of_nat (length (_vocab_list enc)) <= id < 0 ->
  exists tok,
    _vocab_list enc !! Z.to_nat (id + Z.of_nat (length (_vocab_list enc)))
    = Some tok
    /\ decode enc [id] = inr tok.
Proof.
  intros Hid. destruct (py_index_neg (_vocab_list enc) id Hid) as (x & Hx & Hpy).
  exists x. split; [done|].
  unfold decode, decode_id. simpl.
  rewrite (proj2 (Z.ltb_lt _ _)) by lia. by rewrite Hpy.
Qed.

(** C5. For every id in [[0, V+B)], [decode] succeeds: below [V] it
    returns the vocabulary token at that index, and from [V] on it returns
    the OOV marker token. *)
Theorem decode_in_range (isspace : char -> bool) (gfile : text -> option text)
    (vocab_list : option (list text)) (vocab_file : option text)
    (B : Z) (oov_token : text) (enc : TokenTextEncoder) (id : Z) :
  TokenTextEncoder_init isspace gfile vocab_list vocab_file B oov_token
    = inr enc ->
  0 <= id < Z.of_nat (length (_vocab_list enc)) + B ->
  exists tok,
    decode enc [id] = inr tok
    /\ (id < Z.of_nat (length (_vocab_list enc)) ->
        _vocab_list enc !! Z.to_nat id = Some tok)
    /\ (Z.of_nat (length (_vocab_list enc)) <= id -> tok = oov_token).
Proof.
  intros Hinit Hid. apply init_inr in Hinit as (_ & _ & Hoov & _).
  destruct (Z.lt_ge_cases id (Z.of_nat (length (_vocab_list enc))))
    as [Hlt|Hge].
  - destruct (lookup_lt_is_Some_2 (_vocab_list enc) (Z.to_nat id))
      as [tok Htok]; [lia|].
    exists tok. split_and!; [|done|lia].
    rewrite <- (Z2Nat.id id) at 1 by lia. by apply decode_vocab.
  - exists oov_token. split_and!; [|lia|done].
    rewrite <- Hoov. by apply decode_oov.
Qed.

(** The theorem at the vocabulary [cat, dog, fish], one bucket and the
    id [3]. *)
Lemma decode_in_range_witness :
  exists enc,
    TokenTextEncoder_init ascii_isspace no_files
      (Some [text_of "cat"; text_of "dog"; text_of "fish"]) None 1
      (text_of "UNK") = inr enc
    /\ 0 <= 3 < Z.of_nat (length (_vocab_list enc)) + 1
    /\ exists tok,
         decode enc [3] = inr tok
         /\ (3 < Z.of_nat (length (_vocab_list enc)) ->
             _vocab_list enc !! Z.to_nat 3 = Some tok)
         /\ (Z.of_nat (length (_vocab_list enc)) <= 3 -> tok = text_of "UNK").
Proof.
  eexists. split; [reflexivity|].
  split; [simpl; lia|].
  eapply (decode_in_range ascii_isspace no_files
            (Some [text_of "cat"; text_of "dog"; text_of "fish"]) None 1
            (text_of "UNK") _ 3).
  - reflexivity.
  - simpl. lia.
Defined.

(** C4, as amended. Outside [[0, V+B)], with [B >= 0]: [decode] of an id at
    or above [V+B] does not fail, it returns the OOV marker token; [decode]
    of an id below [-V] fails, with an [IndexError]. *)
Theorem decode_out_of_range (isspace : char -> bool)
    (gfile : text -> option text)
    (vocab_list : option (list text)) (vocab_file : option text)
    (B : Z) (oov_token : text) (enc : TokenTextEncoder) (id : Z) :
  TokenTextEncoder_init isspace gfile vocab_list vocab_file B oov_token
    = inr enc ->
  0 <= B ->
  (Z.of_nat (length (_vocab_list enc)) + B <= id ->
   decode enc [id] = inr oov_token)
  /\ (id < - Z.of_nat (length (_vocab_list enc)) ->
      decode enc [id] = inl IndexError).
Proof.
  intros Hinit HB. apply init_inr in Hinit as (_ & _ & Hoov & _). split.
  - intros Hid. rewrite <- Hoov. apply decode_oov. lia.
  - intros Hid. unfold decode, decode_id. simpl.
    rewrite (proj2 (Z.ltb_lt _ _)) by lia.
    by rewrite py_index_below.
Qed.

(** The theorem at the vocabulary [cat, dog, fish], one bucket and the
    id [100]. *)
Lemma decode_out_of_range_witness :
  exists enc,
    TokenTextEncoder_init ascii_isspace no_files
      (Some [text_of "cat"; text_of "dog"; text_of "fish"]) None 1
      (text_of "UNK") = inr enc
    /\ 0 <= 1
    /\ (Z.of_nat (length (_vocab_list enc)) + 1 <= 100 ->
        decode enc [100] = inr (text_of "UNK"))
    /\ (100 < - Z.of_nat (length (_vocab_list enc)) ->
        decode enc [100] = inl IndexError).
Proof.
  eexists. split; [reflexivity|].
  split; [lia|].
  eapply (decode_out_of_range ascii_isspace no_files
            (Some [text_of "cat"; text_of "dog"; text_of "fish"]) None 1
            (text_of "UNK") _ 100).
  - reflexivity.
  - lia.
Defined.

(** C4, as stated, fails: with the vocabulary [cat, dog, fish] and one
    bucket, the ids [100] and [-1] are outside [[0, 4)], and [decode]
    returns a token for each. *)
Lemma decode_out_of_range_counterexample :
  exists enc,
    TokenTextEncoder_init ascii_isspace no_files
      (Some [text_of "cat"; text_of "dog"; text_of "fish"]) None 1
      (text_of "UNK") = inr enc
    /\ vocab_size enc = 4
    /\ ~ (0 <= 100 < vocab_size enc)
    /\ decode enc [100] = inr (text_of "UNK")
    /\ ~ (0 <= -1 < vocab_size enc)
    /\ decode enc [-1] = inr (text_of "fish").
Proof.
  eexists. split; [reflexivity|]. split_and!.
  - reflexivity.
  - vm_compute. intros [_ H]. discriminate H.
  - reflexivity.
  - vm_compute. intros [H _]. by apply H.
  - reflexivity.
Qed.

(** ** Construction *)

(** An optional argument is false when it is left out or empty. *)
Lemma truthy_opt_false {A} (o : option (list A)) :
  truthy_opt o = false <-> o = None \/ o = Some [].
Proof.
  destruct o as [[|a l]|]; simpl; split; try done; auto.
  intros [H|H]; discriminate H.
Qed.

(** C7, as amended. [__init__] raises its [ValueError] exactly when
    [vocab_list] and [vocab_file] have the same truth value: both left out
    or empty, or both non-empty; the number of OOV buckets plays no part.
    Otherwise construction from a non-empty list succeeds, and
    construction from a file succeeds exactly when the file is found. *)
Theorem init_value_error (isspace : char -> bool) (gfile : text -> option text)
    (vocab_list : option (list text)) (vocab_file : option text)
    (B : Z) (oov_token : text) :
  ((exists msg,
      TokenTextEncoder_init isspace gfile vocab_list vocab_file B oov_token
      = inl (ValueError msg))
   <-> truthy_opt vocab_list = truthy_opt vocab_file)
  /\ (truthy_opt vocab_list = true -> truthy_opt vocab_file = false ->
      exists enc,
        TokenTextEncoder_init isspace gfile vocab_list vocab_file B oov_token
        = inr enc)
  /\ (forall fname,
        truthy_opt vocab_list = false -> vocab_file = Some fname ->
        fname <> [] ->
        (is_Some (gfile fname) <->
         exists enc,
           TokenTextEncoder_init isspace gfile vocab_list vocab_file B
             oov_token = inr enc)).
Proof.
  unfold TokenTextEncoder_init. split_and!.
  - destruct (truthy_opt vocab_list), (truthy_opt vocab_file); simpl;
      (split; [intros [msg Hmsg] | intros Heq]); try done; eauto.
    unfold _load_tokens_from_file in Hmsg.
    destruct (gfile _); discriminate Hmsg.
  - intros -> ->. simpl. eauto.
  - intros fname -> -> Hne. destruct fname as [|c fname]; [done|]. simpl.
    unfold _load_tokens_from_file. destruct (gfile (c :: fname)); simpl.
    + split; eauto.
    + split; [by intros [? ?]|]. intros [enc Henc]. discriminate Henc.
Qed.

(** C7, as stated, fails. With an empty inline list, a vocabulary file
    and no OOV bucket, the list is empty and no OOV fallback is usable, and
    construction succeeds, on the tokens of the file.  With an empty inline
    list alone and the default single bucket, a source is passed and an OOV
    fallback is usable, and construction raises. *)
Lemma init_empty_list_counterexample :
  (exists enc,
     TokenTextEncoder_init ascii_isspace one_file (Some [])
       (Some (text_of "vocab.txt")) 0 (text_of "UNK") = inr enc
     /\ _vocab_list enc = [text_of "cat"; text_of "dog"]
     /\ _oov_buckets enc = 0)
  /\ TokenTextEncoder_init ascii_isspace no_files (Some []) None 1
       (text_of "UNK")
     = inl (ValueError
              (text_of "Must provide either vocab_list or vocab_file.")).
Proof.
  split; [|reflexivity].
  eexists. split; [reflexivity|]. split; [|reflexivity].
  vm_compute. reflexivity.
Qed.

(** ** The whole of [encode] *)

(** C10. [encode] tokenizes its input with the default [Tokenizer]
    ([alphanum_only=True], no reserved tokens) and returns one id per
    token, each the id that its loop gives the token; with [B > 0] it
    returns for every input; and for an input without word characters it
    returns the empty list, whatever [B]. *)
Theorem encode_tokenizes_input (isword isspace : char -> bool)
    (as_bytes : text -> list Byte.byte) (md5 : list Byte.byte -> Z)
    (gfile : text -> option text)
    (vocab_list : option (list text)) (vocab_file : option text)
    (B : Z) (oov_token : text) (enc : TokenTextEncoder) (s : text) :
  TokenTextEncoder_init isspace gfile vocab_list vocab_file B oov_token
    = inr enc ->
  (forall ids,
     encode isword as_bytes md5 enc s = inr ids <->
     Forall2 (fun tok id => encode_token as_bytes md5 enc tok = inr id)
       (tokenize isword (Tokenizer_init true None) s) ids)
  /\ (0 < B ->
      exists ids,
        encode isword as_bytes md5 enc s = inr ids
        /\ length ids = length (tokenize isword (Tokenizer_init true None) s))
  /\ (forallb (fun c => negb (isword c)) s = true ->
      encode isword as_bytes md5 enc s = inr []).
Proof.
  intros Hinit. apply init_inr in Hinit as (Hdict & HBenc & _ & Htok).
  unfold encode. rewrite Htok. split_and!.
  - intros ids. apply for_each_inr.
  - intros HB. apply for_each_total. intros tok _.
    destruct (decide (tok ∈ _vocab_list enc)) as [Hin|Hnot].
    + destruct (encode_token_elem as_bytes md5 enc tok Hdict Hin)
        as (k & Hk & _). eauto.
    + rewrite (encode_token_oov as_bytes md5 enc tok Hdict Hnot).
      unfold _oov_bucket. rewrite HBenc.
      rewrite (proj2 (Z.leb_gt B 0)) by done.
      destruct (B =? 1); eauto.
  - intros Hs. by rewrite tokenize_nonword.
Qed.

(** The theorem at the vocabulary [cat, dog, fish], no bucket and the
    input [?!, ...]. *)
Lemma encode_tokenizes_input_witness :
  exists enc,
    TokenTextEncoder_init ascii_isspace no_files
      (Some [text_of "cat"; text_of "dog"; text_of "fish"]) None 0
      (text_of "UNK") = inr enc
    /\ forallb (fun c => negb (ascii_isword c)) (text_of "?!, ...") = true
    /\ encode ascii_isword ascii_as_bytes sum_bytes enc (text_of "?!, ...")
       = inr [].
Proof.
  eexists. split; [reflexivity|].
  split; [reflexivity|].
  eapply (encode_tokenizes_input ascii_isword ascii_isspace ascii_as_bytes
            sum_bytes no_files
            (Some [text_of "cat"; text_of "dog"; text_of "fish"]) None 0
            (text_of "UNK") _ (text_of "?!, ...")).
  - reflexivity.
  - reflexivity.
Defined.

(** ** The scenarios of the specification, evaluated *)

Example hello_world_invertible :
  let t := Tokenizer_init false None in
  tokenize ascii_isword t (text_of "Hello, world!")
  = [text_of "Hello"; text_of ", "; text_of "world"; text_of "!"]
  /\ join t (tokenize ascii_isword t (text_of "Hello, world!"))
     = text_of "Hello, world!".
Proof. split; vm_compute; reflexivity. Qed.

Example hello_world_alphanum_only :
  let t := Tokenizer_init true None in
  tokenize ascii_isword t (text_of "Hello, world!")
  = [text_of "Hello"; text_of "world"]
  /\ join t (tokenize ascii_isword t (text_of "Hello, world!"))
     = text_of "Hello world".
Proof. split; vm_compute; reflexivity. Qed.

Example cat_dog_fish :
  exists enc,
    TokenTextEncoder_init ascii_isspace no_files
      (Some [text_of "cat"; text_of "dog"; text_of "fish"]) None 1
      (text_of "UNK") = inr enc
    /\ encode ascii_isword ascii_as_bytes sum_bytes enc (text_of "dog")
       = inr [1]
    /\ encode ascii_isword ascii_as_bytes sum_bytes enc (text_of "bird")
       = inr [3]
    /\ decode enc [3] = inr (text_of "UNK")
    /\ vocab_size enc = 4.
Proof.
  eexists. split; [reflexivity|].
  split_and!; vm_compute; reflexivity.
Qed.

(** ** More on the Tokenizer *)

Section TokenizerMore.

Variable isword : char -> bool.

Lemma nonword_run_take (s : text) :
  forallb (fun c => negb (isword c)) (take (nonword_run isword s) s) = true.
Proof.
  induction s as [|c s IH]; simpl; [done|].
  destruct (isword c) eqn:Hc; simpl; [done|]. by rewrite Hc.
Qed.

Lemma match_at_nonword_Some (capture : bool) (s : text) (n : nat) :
  match_at isword (NonWordRun capture) s = Some n ->
  n = nonword_run isword s /\ n <> 0%nat.
Proof.
  unfold match_at. destruct (nonword_run isword s); [done|].
  by intros [= <-].
Qed.

Lemma match_at_nonword_None (capture : bool) (c : char) (s : text) :
  match_at isword (NonWordRun capture) (c :: s) = None -> isword c = true.
Proof. unfold match_at. simpl. by destruct (isword c). Qed.

(** The pieces of a split on [\W+] are runs of word characters, and the
    separators that a capturing group keeps are runs of other
    characters. *)
Lemma re_split_from_nonword_pieces (capture : bool) (s cur : text) :
  forallb isword cur = true ->
  Forall (fun piece =>
            forallb isword piece = true
            \/ (capture = true
                /\ forallb (fun c => negb (isword c)) piece = true))
    (re_split_from isword (NonWordRun capture) s cur).
Proof.
  remember (length s) as n eqn:Hn. revert s cur Hn.
  induction n as [n IH] using lt_wf_ind. intros s cur -> Hcur.
  destruct s as [|c s'].
  - simp re_split_from. constructor; auto.
  - destruct (match_at isword (NonWordRun capture) (c :: s')) as [m|] eqn:Hm.
    + destruct (match_at_nonword_Some _ _ _ Hm) as [-> Hne].
      destruct (nonword_run isword (c :: s')) as [|k] eqn:Hk; [done|].
      rewrite (re_split_from_match isword _ c s' cur k Hm).
      constructor; [auto|]. apply Forall_app. split.
      * unfold captures. destruct capture; constructor; [|constructor].
        right. split; [done|]. rewrite <- Hk. apply nonword_run_take.
      * eapply (IH (length (drop k s'))); [|done..].
        rewrite length_drop. simpl. lia.
    + rewrite (re_split_from_skip isword _ c s' cur Hm).
      eapply (IH (length s')); [simpl; lia|done|].
      rewrite forallb_app, Hcur. simpl.
      by rewrite (match_at_nonword_None _ _ _ Hm).
Qed.

(** The scan for [\W+] crosses a word, whatever follows. *)
Lemma re_split_from_word_app (capture : bool) (w rest cur : text) :
  forallb isword w = true ->
  re_split_from isword (NonWordRun capture) (w ++ rest) cur =
  re_split_from isword (NonWordRun capture) rest (cur ++ w).
Proof.
  revert cur. induction w as [|c w IH]; intros cur Hw; simpl.
  - by rewrite app_nil_r.
  - simpl in Hw. apply andb_prop in Hw as [Hc Hw].
    rewrite re_split_from_skip by (simpl; by rewrite Hc).
    rewrite IH by done. by rewrite <- app_assoc.
Qed.

Lemma filter_truthy_nonempty (l : list text) :
  Forall (fun t => t <> []) l -> List.filter truthy l = l.
Proof.
  induction 1 as [|t l Ht _ IH]; simpl; [done|].
  destruct t; [done|]. simpl. by rewrite IH.
Qed.

Lemma Forall_filter_truthy (P : text -> Prop) (l : list text) :
  Forall P l -> Forall (fun t => t <> [] /\ P t) (List.filter truthy l).
Proof.
  induction 1 as [|t l Ht _ IH]; simpl; [constructor|].
  destruct t; simpl; [done|]. by constructor.
Qed.

End TokenizerMore.

(** Every token is non-empty, and is a reserved token, a run of word
    characters or, when they are kept, a run of other characters. *)
Lemma tokenize_kinds (isword : char -> bool) (alphanum_only : bool)
    (reserved : option (list text)) (s : text) :
  Forall (fun tok =>
            tok <> []
            /\ (tok ∈ default [] reserved
                \/ forallb isword tok = true
                \/ (alphanum_only = false
                    /\ forallb (fun c => negb (isword c)) tok = true)))
    (tokenize isword (Tokenizer_init alphanum_only reserved) s).
Proof.
  unfold tokenize. apply Forall_filter_truthy.
  apply Forall_concat, Forall_map, Forall_forall. intros substr _. simpl.
  destruct (decide (substr ∈ (list_to_set (default [] reserved) : gset text)))
    as [Hin|_].
  - constructor; [|constructor]. left. by apply elem_of_list_to_set in Hin.
  - unfold re_split. destruct alphanum_only; simpl.
    + eapply Forall_impl;
        [by apply (re_split_from_nonword_pieces isword false substr [])|].
      intros piece [Hw|[Hc _]]; [auto|done].
    + eapply Forall_impl;
        [by apply (re_split_from_nonword_pieces isword true substr [])|].
      intros piece [Hw|[_ Hn]]; auto.
Qed.

(** X1. With [alphanum_only=True] and no reserved tokens, every token is a
    non-empty run of word characters. *)
Theorem tokenize_alphanum_only_words (isword : char -> bool) (s : text) :
  Forall (word_token isword) (tokenize isword (Tokenizer_init true None) s)
  /\ Forall (word_token isword)
       (tokenize isword (Tokenizer_init true (Some [])) s).
Proof.
  split; eapply Forall_impl;
    try apply (tokenize_kinds isword true _ s); simpl;
    intros tok [Hne [Hin|[Hw|[Hf _]]]]; try done;
    by apply elem_of_nil in Hin.
Qed.

(** X2. With [alphanum_only=False] and no reserved tokens, every token is
    non-empty and of one kind: word characters only, or none. *)
Theorem tokenize_invertible_homogeneous (isword : char -> bool) (s : text) :
  Forall (fun tok => tok <> [] /\ homogeneous isword tok)
    (tokenize isword (Tokenizer_init false None) s).
Proof.
  eapply Forall_impl; [apply (tokenize_kinds isword false None s)|].
  simpl. intros tok [Hne [Hin|[Hw|[_ Hn]]]].
  - by apply elem_of_nil in Hin.
  - split; [done|by left].
  - split; [done|by right].
Qed.

(** X3. With reserved tokens that the pattern reads literally, every token
    is non-empty and is a reserved token or of one kind; under
    [alphanum_only=True] it is a reserved token or a run of word
    characters. *)
Theorem tokenize_reserved_or_homogeneous (isword : char -> bool)
    (alphanum_only : bool) (toks : list text) (s : text) :
  Forall regex_literal toks ->
  Forall (fun tok =>
            tok <> []
            /\ (tok ∈ toks
                \/ (if alphanum_only then forallb isword tok = true
                    else homogeneous isword tok)))
    (tokenize isword (Tokenizer_init alphanum_only (Some toks)) s).
Proof.
  intros _.
  eapply Forall_impl; [apply (tokenize_kinds isword alphanum_only _ s)|].
  simpl. intros tok [Hne [Hin|[Hw|[Ha Hn]]]]; split; auto.
  - right. destruct alphanum_only; [done|by left].
  - right. rewrite Ha. by right.
Qed.

(** The theorem at the reserved tokens [<EOS>] and [<PAD>]. *)
Lemma tokenize_reserved_or_homogeneous_witness :
  Forall (fun tok =>
            tok <> []
            /\ (tok ∈ [text_of "<EOS>"; text_of "<PAD>"]
                \/ homogeneous ascii_isword tok))
    (tokenize ascii_isword
       (Tokenizer_init false (Some [text_of "<EOS>"; text_of "<PAD>"]))
       (text_of "hi<EOS>, you")).
Proof.
  apply (tokenize_reserved_or_homogeneous ascii_isword false
           [text_of "<EOS>"; text_of "<PAD>"] (text_of "hi<EOS>, you")).
  repeat constructor; vm_compute; congruence.
Defined.

Lemma concat_concat_map (g : text -> list text) (l : list text) :
  (forall x, concat (g x) = x) -> concat (concat (map g l)) = concat l.
Proof.
  intros Hg. induction l as [|x l IH]; simpl; [done|].
  by rewrite concat_app, Hg, IH.
Qed.

(** X4. The round trip of C1 with reserved tokens: under
    [alphanum_only=False], with reserved tokens that the pattern reads
    literally, joining the tokens of any string gives the string back. *)
Theorem join_tokenize_roundtrip_reserved (isword : char -> bool)
    (toks : list text) (s : text) :
  Forall regex_literal toks ->
  join (Tokenizer_init false (Some toks))
       (tokenize isword (Tokenizer_init false (Some toks)) s) = s.
Proof.
  intros _. unfold join, tokenize. simpl.
  rewrite str_join_nil, concat_filter_truthy, concat_concat_map.
  - destruct (decide ((list_to_set toks : gset text) = ∅)) as [_|_];
      [simpl; by rewrite app_nil_r|].
    by apply re_split_concat.
  - intros x. destruct (decide (x ∈ (list_to_set toks : gset text)));
      [simpl; by rewrite app_nil_r|].
    by apply re_split_concat.
Qed.

(** The theorem at [hi<EOS>, you <PAD>]. *)
Lemma join_tokenize_roundtrip_reserved_witness :
  join (Tokenizer_init false (Some [text_of "<EOS>"; text_of "<PAD>"]))
       (tokenize ascii_isword
          (Tokenizer_init false (Some [text_of "<EOS>"; text_of "<PAD>"]))
          (text_of "hi<EOS>, you <PAD>"))
  = text_of "hi<EOS>, you <PAD>".
Proof.
  apply (join_tokenize_roundtrip_reserved ascii_isword
           [text_of "<EOS>"; text_of "<PAD>"] (text_of "hi<EOS>, you <PAD>")).
  repeat constructor; vm_compute; congruence.
Defined.

Section JoinThenTokenize.

Variable isword : char -> bool.

(** The space that [join] puts between tokens is not a word character. *)
Hypothesis space_nonword : isword 32%N = false.

(** The split on [\W+] of words joined by single spaces gives the words
    back. *)
Lemma re_split_join_words (capture : bool) (l : list text) (cur : text) :
  capture = false ->
  Forall (word_token isword) l -> l <> [] ->
  re_split_from isword (NonWordRun capture) (str_join [32%N] l) cur =
  match l with
  | [] => [cur]
  | w :: l' => (cur ++ w) :: l'
  end.
Proof.
  intros -> Hl. revert cur. induction Hl as [|w l [Hne Hw] Hl IH];
    intros cur Hnil; [done|].
  destruct l as [|w2 l'].
  - simpl. by apply re_split_from_words.
  - change (str_join [32%N] (w :: w2 :: l'))
      with (w ++ 32%N :: str_join [32%N] (w2 :: l')).
    rewrite re_split_from_word_app by done.
    inversion Hl as [|? ? [Hne2 Hw2] Hl']; subst.
    assert (exists c rest, str_join [32%N] (w2 :: l') = c :: rest
                           /\ isword c = true) as (c & rest & Hs & Hc).
    { destruct w2 as [|c w2']; [done|]. simpl in Hw2.
      apply andb_prop in Hw2 as [Hc _].
      destruct l'; simpl; eauto. }
    specialize (IH [] ltac:(done)).
    remember (str_join [32%N] (w2 :: l')) as body eqn:Hbody.
    rewrite (re_split_from_match isword _ 32%N body (cur ++ w) 0).
    + simpl. by rewrite drop_0, IH.
    + unfold match_at. simpl. rewrite space_nonword, Hs. simpl.
      by rewrite Hc.
Qed.

Lemma tokenize_join_word_list (l : list text) :
  Forall (word_token isword) l ->
  tokenize isword (Tokenizer_init true None)
    (join (Tokenizer_init true None) l) = l.
Proof.
  intros Hl. rewrite tokenize_plain by done. unfold join, re_split. simpl.
  destruct l as [|w l']; [by simp re_split_from|].
  change (text_of " ") with [32%N].
  rewrite re_split_join_words by done. simpl.
  apply (filter_truthy_nonempty (w :: l')).
  eapply Forall_impl; [exact Hl|]. by intros t [Hne _].
Qed.

End JoinThenTokenize.

(** X5. Under [alphanum_only=True] without reserved tokens, where the
    space is not a word character, tokenizing the join of non-empty runs
    of word characters gives them back, one token each. *)
Theorem tokenize_join_words (isword : char -> bool) (l : list text) :
  isword 32%N = false ->
  Forall (word_token isword) l ->
  tokenize isword (Tokenizer_init true None)
    (join (Tokenizer_init true None) l) = l.
Proof. intros Hsp Hl. by apply tokenize_join_word_list. Qed.

(** The theorem at the words [Hello] and [world]. *)
Lemma tokenize_join_words_witness :
  tokenize ascii_isword (Tokenizer_init true None)
    (join (Tokenizer_init true None) [text_of "Hello"; text_of "world"])
  = [text_of "Hello"; text_of "world"].
Proof.
  apply (tokenize_join_words ascii_isword
           [text_of "Hello"; text_of "world"]).
  - reflexivity.
  - repeat constructor; vm_compute; congruence.
Defined.

(** X6. Under [alphanum_only=True] without reserved tokens, where the
    space is not a word character, [join] then [tokenize] leaves the tokens
    of any string as they are: the lossy join loses no token. *)
Theorem tokenize_join_tokenize (isword : char -> bool) (s : text) :
  isword 32%N = false ->
  tokenize isword (Tokenizer_init true None)
    (join (Tokenizer_init true None)
       (tokenize isword (Tokenizer_init true None) s))
  = tokenize isword (Tokenizer_init true None) s.
Proof.
  intros Hsp. apply tokenize_join_word_list; [done|].
  eapply Forall_impl; [apply (tokenize_kinds isword true None s)|].
  simpl. intros tok [Hne [Hin|[Hw|[Hf _]]]]; try done.
  by apply elem_of_nil in Hin.
Qed.

(** The theorem at [Hello, world!]. *)
Lemma tokenize_join_tokenize_witness :
  tokenize ascii_isword (Tokenizer_init true None)
    (join (Tokenizer_init true None)
       (tokenize ascii_isword (Tokenizer_init true None)
          (text_of "Hello, world!")))
  = tokenize ascii_isword (Tokenizer_init true None) (text_of "Hello, world!").
Proof.
  apply (tokenize_join_tokenize ascii_isword (text_of "Hello, world!")).
  reflexivity.
Defined.


(** ** Stripping, and lines *)

Section StripFacts.

Variable isspace : char -> bool.

Lemma lstrip_head (s : text) :
  match lstrip isspace s with
  | [] => True
  | c :: _ => isspace c = false
  end.
Proof.
  induction s as [|c s IH]; simpl; [done|].
  destruct (isspace c) eqn:Hc; [done|]. simpl. done.
Qed.

Lemma lstrip_nonspace (c : char) (s : text) :
  isspace c = false -> lstrip isspace (c :: s) = c :: s.
Proof. intros Hc. simpl. by rewrite Hc. Qed.

Lemma lstrip_app_nonspace (l m : text) (c : char) :
  isspace c = false ->
  lstrip isspace (l ++ c :: m) = lstrip isspace l ++ c :: m.
Proof.
  intros Hc. induction l as [|a l IH]; simpl.
  - by rewrite Hc.
  - by destruct (isspace a).
Qed.

(** Stripping on the right keeps a first character that is not a space. *)
Lemma rstrip_head (c : char) (s : text) :
  isspace c = false ->
  exists s', rev (lstrip isspace (rev (c :: s))) = c :: s'.
Proof.
  intros Hc. simpl. rewrite lstrip_app_nonspace by done.
  rewrite rev_app_distr. simpl. eauto.
Qed.

Lemma rstrip_idemp (s : text) :
  rev (lstrip isspace (rev (rev (lstrip isspace (rev s))))) =
  rev (lstrip isspace (rev s)).
Proof.
  rewrite rev_involutive. f_equal.
  pose proof (lstrip_head (rev s)) as Hh.
  destruct (lstrip isspace (rev s)) as [|c r]; [done|].
  by apply lstrip_nonspace.
Qed.

(** [strip] does nothing to a stripped string. *)
Lemma strip_idemp (s : text) :
  strip isspace (strip isspace s) = strip isspace s.
Proof.
  unfold strip. pose proof (lstrip_head s) as Hh.
  destruct (lstrip isspace s) as [|c r] eqn:Hs; [done|].
  destruct (rstrip_head c r Hh) as [s' Hs'].
  rewrite Hs'. rewrite lstrip_nonspace by done.
  rewrite <- Hs'. apply rstrip_idemp.
Qed.

End StripFacts.

Lemma str_split_nonempty (sep : char) (s : text) : str_split sep s <> [].
Proof.
  induction s as [|c s IH]; simpl; [done|].
  destruct (N.eqb c sep); [done|]. by destruct (str_split sep s).
Qed.

Lemma str_split_no_sep (sep : char) (s : text) :
  sep ∉ s -> str_split sep s = [s].
Proof.
  induction s as [|c s IH]; intros Hs; simpl; [done|].
  destruct (N.eqb_spec c sep) as [->|Hne]; [set_solver|].
  rewrite IH; [done|set_solver].
Qed.

Lemma str_split_app_sep (sep : char) (a rest : text) :
  sep ∉ a -> str_split sep (a ++ sep :: rest) = a :: str_split sep rest.
Proof.
  induction a as [|c a IH]; intros Ha; simpl.
  - by rewrite N.eqb_refl.
  - destruct (N.eqb_spec c sep) as [->|Hne]; [set_solver|].
    rewrite IH; [done|set_solver].
Qed.

(** Splitting the join of strings that are free of the separator gives the
    strings back, if there is one at least. *)
Lemma str_split_join (sep : char) (l : list text) :
  l <> [] -> Forall (fun t => sep ∉ t) l ->
  str_split sep (str_join [sep] l) = l.
Proof.
  intros Hne Hl. induction Hl as [|a l Ha Hl IH]; [done|].
  destruct l as [|b l'].
  - simpl. by apply str_split_no_sep.
  - change (str_join [sep] (a :: b :: l'))
      with (a ++ sep :: str_join [sep] (b :: l')).
    rewrite str_split_app_sep by done. by rewrite IH.
Qed.

(** ** More on the encoder *)

Section EncoderMore.

Variable isword : char -> bool.
Variable isspace : char -> bool.
Variable as_bytes : text -> list Byte.byte.
Variable md5 : list Byte.byte -> Z.
Variable gfile : text -> option text.

(** The vocabulary that [__init__] builds: the stripped elements of a list
    that is not empty. *)
Lemma init_vocab vocab_list vocab_file oov_buckets oov_token enc :
  TokenTextEncoder_init isspace gfile vocab_list vocab_file oov_buckets
    oov_token = inr enc ->
  exists els, els <> [] /\ _vocab_list enc = strip isspace <$> els.
Proof.
  unfold TokenTextEncoder_init.
  destruct (negb _ || _) eqn:Hguard; [done|].
  destruct (truthy_opt vocab_list) eqn:Hvl; simpl.
  - intros [= <-]. simpl. exists (default [] vocab_list). split; [|done].
    by destruct vocab_list as [[|]|].
  - unfold _load_tokens_from_file. destruct (gfile _) as [content|]; [|done].
    simpl. intros [= <-]. simpl.
    exists (strip isspace <$> str_split 10%N content). split; [|done].
    pose proof (str_split_nonempty 10%N content).
    by destruct (str_split 10%N content).
Qed.

(** The keys of [_token_to_id] are the tokens of the vocabulary, and the
    value of a key is a position of that token. *)
Lemma token_to_id_lookup (enc : TokenTextEncoder) (t : text) :
  _token_to_id enc =
    dict (zip (_vocab_list enc) (range (length (_vocab_list enc)))) ->
  (t ∈ _vocab_list enc <-> is_Some (_token_to_id enc !! t))
  /\ (forall z, _token_to_id enc !! t = Some z ->
      0 <= z < Z.of_nat (length (_vocab_list enc))
      /\ _vocab_list enc !! Z.to_nat z = Some t).
Proof.
  intros Hdict. rewrite Hdict.
  destruct (decide (t ∈ _vocab_list enc)) as [Hin|Hnot].
  - destruct (dict_zip_lookup_elem _ _ Hin) as (k & Hk & Hlk & _).
    rewrite Hk. split; [by split; eauto|].
    intros z [= <-]. rewrite Nat2Z.id. split; [|done].
    apply lookup_lt_Some in Hlk. lia.
  - rewrite dict_zip_lookup_None by done. split; [|done].
    split; [done|]. by intros [? ?].
Qed.

(** What the loop of [encode] returns for a token, when it returns. *)
Lemma encode_token_inr (enc : TokenTextEncoder) (tok : text) (id : Z) :
  _token_to_id enc =
    dict (zip (_vocab_list enc) (range (length (_vocab_list enc)))) ->
  encode_token as_bytes md5 enc tok = inr id ->
  let V := Z.of_nat (length (_vocab_list enc)) in
  ((tok ∈ _vocab_list enc) /\ 0 <= id < V
   /\ _vocab_list enc !! Z.to_nat id = Some tok)
  \/ ((tok ∉ _vocab_list enc) /\ 0 < _oov_buckets enc
      /\ V <= id < V + _oov_buckets enc).
Proof.
  intros Hdict Henc V.
  destruct (decide (tok ∈ _vocab_list enc)) as [Hin|Hnot].
  - left. destruct (encode_token_elem as_bytes md5 enc tok Hdict Hin)
      as (k & Hk & Hlk & _).
    rewrite Hk in Henc. injection Henc as <-. rewrite Nat2Z.id.
    split_and!; [done|lia| |done].
    apply lookup_lt_Some in Hlk. unfold V. lia.
  - right. rewrite (encode_token_oov as_bytes md5 enc tok Hdict Hnot) in Henc.
    unfold _oov_bucket in Henc.
    destruct (Z.leb_spec (_oov_buckets enc) 0) as [|HB]; [done|].
    split; [done|]. split; [done|].
    destruct (Z.eqb_spec (_oov_buckets enc) 1) as [HB1|HB1];
      injection Henc as <-.
    + unfold V. lia.
    + pose proof (Z.mod_pos_bound (md5 (as_bytes tok)) (_oov_buckets enc) HB).
      unfold V. lia.
Qed.

(** [decode] undoes the loop of [encode] on a token of the vocabulary,
    and gives the OOV marker for any other. *)
Lemma decode_id_encode_token (enc : TokenTextEncoder) (tok : text) (id : Z) :
  _token_to_id enc =
    dict (zip (_vocab_list enc) (range (length (_vocab_list enc)))) ->
  encode_token as_bytes md5 enc tok = inr id ->
  decode_id enc id = inr (known_or_oov enc tok).
Proof.
  intros Hdict Henc. unfold known_or_oov, decode_id.
  destruct (encode_token_inr enc tok id Hdict Henc)
    as [(Hin & Hid & Hlk)|(Hnot & HB & Hid)].
  - rewrite decide_True by done.
    rewrite (proj2 (Z.ltb_lt _ _)) by lia.
    rewrite <- (Z2Nat.id id) by lia. by apply py_index_nat.
  - rewrite decide_False by done.
    by rewrite (proj2 (Z.ltb_ge _ _)) by lia.
Qed.

End EncoderMore.

Lemma for_each_fmap {A B} (f : A -> result B) (g : A -> B) (l : list A) :
  Forall (fun a => f a = inr (g a)) l -> for_each f l = inr (g <$> l).
Proof.
  induction 1 as [|a l Ha _ IH]; simpl; [done|]. by rewrite Ha, IH.
Qed.

Lemma for_each_first_error {A B} (f : A -> result B) (pre post : list A)
    (a : A) (e : exn) :
  Forall (fun x => exists b, f x = inr b) pre ->
  f a = inl e ->
  for_each f (pre ++ a :: post) = inl e.
Proof.
  intros Hpre Ha. induction Hpre as [|x pre [b Hb] _ IH]; simpl.
  - by rewrite Ha.
  - by rewrite Hb, IH.
Qed.

Lemma strip_ends (isspace : char -> bool) (s : text) (c : char) :
  head (strip isspace s) = Some c \/ last (strip isspace s) = Some c ->
  isspace c = false.
Proof.
  unfold strip. intros [Hh|Hl].
  - pose proof (lstrip_head isspace s) as Hs.
    destruct (lstrip isspace s) as [|a r]; [done|].
    destruct (rstrip_head isspace a r Hs) as [s' Hs'].
    rewrite Hs' in Hh. simpl in Hh. by injection Hh as <-.
  - pose proof (lstrip_head isspace (rev (lstrip isspace s))) as Hs.
    destruct (lstrip isspace (rev (lstrip isspace s))) as [|a r]; [done|].
    simpl in Hl. rewrite last_snoc in Hl. by injection Hl as <-.
Qed.

(** X8. After construction the vocabulary is not empty, and no token of it
    begins or ends with a whitespace character: each is its own
    [strip]. *)
Theorem init_vocabulary_stripped (isspace : char -> bool)
    (gfile : text -> option text)
    (vocab_list : option (list text)) (vocab_file : option text)
    (B : Z) (oov_token : text) (enc : TokenTextEncoder) :
  TokenTextEncoder_init isspace gfile vocab_list vocab_file B oov_token
    = inr enc ->
  _vocab_list enc <> []
  /\ Forall (fun t =>
               strip isspace t = t
               /\ forall c, head t = Some c \/ last t = Some c ->
                            isspace c = false)
       (_vocab_list enc).
Proof.
  intros Hinit. destruct (init_vocab _ _ _ _ _ _ _ Hinit) as (els & Hne & ->).
  split; [by destruct els|].
  apply Forall_fmap, Forall_forall. intros t _. simpl. split.
  - apply strip_idemp.
  - apply strip_ends.
Qed.

(** The theorem at a list with spaces around its tokens. *)
Lemma init_vocabulary_stripped_witness :
  exists enc,
    TokenTextEncoder_init ascii_isspace no_files
      (Some [text_of " cat"; text_of "dog  "]) None 1 (text_of "UNK")
    = inr enc
    /\ _vocab_list enc <> []
    /\ Forall (fun t =>
                 strip ascii_isspace t = t
                 /\ forall c, head t = Some c \/ last t = Some c ->
                              ascii_isspace c = false)
         (_vocab_list enc).
Proof.
  eexists. split; [reflexivity|].
  eapply (init_vocabulary_stripped ascii_isspace no_files
            (Some [text_of " cat"; text_of "dog  "]) None 1 (text_of "UNK")).
  reflexivity.
Defined.

(** X9. After construction, the keys of [_token_to_id] are exactly the
    tokens of the vocabulary, and the id of a key is an index of the
    vocabulary that holds this very token. *)
Theorem token_to_id_consistent (isspace : char -> bool)
    (gfile : text -> option text)
    (vocab_list : option (list text)) (vocab_file : option text)
    (B : Z) (oov_token : text) (enc : TokenTextEncoder) (t : text) :
  TokenTextEncoder_init isspace gfile vocab_list vocab_file B oov_token
    = inr enc ->
  (t ∈ _vocab_list enc <-> is_Some (_token_to_id enc !! t))
  /\ (forall z, _token_to_id enc !! t = Some z ->
      0 <= z < Z.of_nat (length (_vocab_list enc))
      /\ _vocab_list enc !! Z.to_nat z = Some t).
Proof.
  intros Hinit. apply init_inr in Hinit as (Hdict & _).
  by apply token_to_id_lookup.
Qed.

(** The theorem at the vocabulary [cat, dog, fish] and the token [dog]. *)
Lemma token_to_id_consistent_witness :
  exists enc,
    TokenTextEncoder_init ascii_isspace no_files
      (Some [text_of "cat"; text_of "dog"; text_of "fish"]) None 1
      (text_of "UNK") = inr enc
    /\ (text_of "dog" ∈ _vocab_list enc
        <-> is_Some (_token_to_id enc !! text_of "dog"))
    /\ (forall z, _token_to_id enc !! text_of "dog" = Some z ->
        0 <= z < Z.of_nat (length (_vocab_list enc))
        /\ _vocab_list enc !! Z.to_nat z = Some (text_of "dog")).
Proof.
  eexists. split; [reflexivity|].
  eapply (token_to_id_consistent ascii_isspace no_files
            (Some [text_of "cat"; text_of "dog"; text_of "fish"]) None 1
            (text_of "UNK") _ (text_of "dog")).
  reflexivity.
Defined.

(** X10. With [B >= 0], every id that [encode] returns lies in
    [[0, vocab_size)]. *)
Theorem encode_ids_below_vocab_size (isword isspace : char -> bool)
    (as_bytes : text -> list Byte.byte) (md5 : list Byte.byte -> Z)
    (gfile : text -> option text)
    (vocab_list : option (list text)) (vocab_file : option text)
    (B : Z) (oov_token : text) (enc : TokenTextEncoder)
    (s : text) (ids : list Z) :
  TokenTextEncoder_init isspace gfile vocab_list vocab_file B oov_token
    = inr enc ->
  0 <= B ->
  encode isword as_bytes md5 enc s = inr ids ->
  Forall (fun id => 0 <= id < vocab_size enc) ids.
Proof.
  intros Hinit HB Henc. apply init_inr in Hinit as (Hdict & HBenc & _).
  apply for_each_inr in Henc. unfold vocab_size. rewrite HBenc.
  induction Henc as [|tok id toks ids' Htok _ IH]; constructor; [|done].
  destruct (encode_token_inr as_bytes md5 enc tok id Hdict Htok)
    as [(_ & Hid & _)|(_ & _ & Hid)]; lia.
Qed.

(** The theorem at the vocabulary [cat, dog, fish], five buckets and the
    input [bird dog, cat!]. *)
Lemma encode_ids_below_vocab_size_witness :
  exists enc ids,
    TokenTextEncoder_init ascii_isspace no_files
      (Some [text_of "cat"; text_of "dog"; text_of "fish"]) None 5
      (text_of "UNK") = inr enc
    /\ encode ascii_isword ascii_as_bytes sum_bytes enc
         (text_of "bird dog, cat!") = inr ids
    /\ Forall (fun id => 0 <= id < vocab_size enc) ids.
Proof.
  eexists. eexists. split; [reflexivity|].
  split; [vm_compute; reflexivity|].
  eapply (encode_ids_below_vocab_size ascii_isword ascii_isspace
            ascii_as_bytes sum_bytes no_files
            (Some [text_of "cat"; text_of "dog"; text_of "fish"]) None 5
            (text_of "UNK") _ (text_of "bird dog, cat!")).
  - reflexivity.
  - lia.
  - vm_compute. reflexivity.
Defined.

(** X11. When [encode] returns an id for a token, the id is below the
    vocabulary length exactly when the token is in the vocabulary: an OOV
    id is never the id of a known token. *)
Theorem encode_token_known_iff (isspace : char -> bool)
    (as_bytes : text -> list Byte.byte) (md5 : list Byte.byte -> Z)
    (gfile : text -> option text)
    (vocab_list : option (list text)) (vocab_file : option text)
    (B : Z) (oov_token : text) (enc : TokenTextEncoder)
    (tok : text) (id : Z) :
  TokenTextEncoder_init isspace gfile vocab_list vocab_file B oov_token
    = inr enc ->
  encode_token as_bytes md5 enc tok = inr id ->
  (id < Z.of_nat (length (_vocab_list enc)) <-> tok ∈ _vocab_list enc).
Proof.
  intros Hinit Henc. apply init_inr in Hinit as (Hdict & _).
  destruct (encode_token_inr as_bytes md5 enc tok id Hdict Henc)
    as [(Hin & Hid & _)|(Hnot & _ & Hid)]; split; try done; lia.
Qed.

(** The theorem at the vocabulary [cat, dog, fish], five buckets and the
    token [bird]. *)
Lemma encode_token_known_iff_witness :
  exists enc id,
    TokenTextEncoder_init ascii_isspace no_files
      (Some [text_of "cat"; text_of "dog"; text_of "fish"]) None 5
      (text_of "UNK") = inr enc
    /\ encode_token ascii_as_bytes sum_bytes enc (text_of "bird") = inr id
    /\ (id < Z.of_nat (length (_vocab_list enc))
        <-> text_of "bird" ∈ _vocab_list enc).
Proof.
  eexists. eexists. split; [reflexivity|].
  split; [vm_compute; reflexivity|].
  eapply (encode_token_known_iff ascii_isspace ascii_as_bytes sum_bytes
            no_files
            (Some [text_of "cat"; text_of "dog"; text_of "fish"]) None 5
            (text_of "UNK") _ (text_of "bird")).
  - reflexivity.
  - vm_compute. reflexivity.
Defined.

(** Decoding the ids of a list of tokens gives the tokens, the unknown
    ones replaced by the OOV marker, joined by spaces. *)
Lemma decode_encoded_tokens (as_bytes : text -> list Byte.byte)
    (md5 : list Byte.byte -> Z) (enc : TokenTextEncoder)
    (toks : list text) (ids : list Z) :
  _token_to_id enc =
    dict (zip (_vocab_list enc) (range (length (_vocab_list enc)))) ->
  for_each (encode_token as_bytes md5 enc) toks = inr ids ->
  decode enc ids
  = inr (str_join (text_of " ") (known_or_oov enc <$> toks)).
Proof.
  intros Hdict Henc. apply for_each_inr in Henc.
  assert (for_each (decode_id enc) ids = inr (known_or_oov enc <$> toks))
    as Hdec.
  { induction Henc as [|tok id toks' ids' Hid _ IH]; simpl; [done|].
    by rewrite (decode_id_encode_token as_bytes md5 enc tok id Hdict Hid), IH. }
  unfold decode. by rewrite Hdec.
Qed.

Lemma known_or_oov_known (enc : TokenTextEncoder) (toks : list text) :
  Forall (fun tok => tok ∈ _vocab_list enc) toks ->
  known_or_oov enc <$> toks = toks.
Proof.
  induction 1 as [|tok toks Hin _ IH]; simpl; [done|].
  unfold known_or_oov at 1. rewrite decide_True by done. by f_equal.
Qed.

(** X12. Decoding what [encode] returns gives the tokens of the input
    joined by single spaces, each token outside the vocabulary replaced by
    the OOV marker; when every token is in the vocabulary this is the
    [join] of the encoder's tokenizer on the tokens. *)
Theorem decode_encode (isword isspace : char -> bool)
    (as_bytes : text -> list Byte.byte) (md5 : list Byte.byte -> Z)
    (gfile : text -> option text)
    (vocab_list : option (list text)) (vocab_file : option text)
    (B : Z) (oov_token : text) (enc : TokenTextEncoder)
    (s : text) (ids : list Z) :
  TokenTextEncoder_init isspace gfile vocab_list vocab_file B oov_token
    = inr enc ->
  encode isword as_bytes md5 enc s = inr ids ->
  decode enc ids
  = inr (str_join (text_of " ")
           (known_or_oov enc <$> tokenize isword (Tokenizer_init true None) s))
  /\ (Forall (fun tok => tok ∈ _vocab_list enc)
        (tokenize isword (Tokenizer_init true None) s) ->
      decode enc ids
      = inr (join (_tokenizer enc) (tokenize isword (_tokenizer enc) s))).
Proof.
  intros Hinit Henc. apply init_inr in Hinit as (Hdict & _ & _ & Htok).
  unfold encode in Henc. rewrite Htok in *.
  rewrite (decode_encoded_tokens as_bytes md5 enc _ ids Hdict Henc).
  split; [done|]. intros Hall. unfold join. simpl.
  by rewrite known_or_oov_known.
Qed.

(** The theorem at the vocabulary [cat, dog, fish], one bucket and the
    input [bird dog, cat!]. *)
Lemma decode_encode_witness :
  exists enc ids,
    TokenTextEncoder_init ascii_isspace no_files
      (Some [text_of "cat"; text_of "dog"; text_of "fish"]) None 1
      (text_of "UNK") = inr enc
    /\ encode ascii_isword ascii_as_bytes sum_bytes enc
         (text_of "bird dog, cat!") = inr ids
    /\ decode enc ids = inr (text_of "UNK dog cat").
Proof.
  eexists. eexists. split; [reflexivity|].
  split; [vm_compute; reflexivity|].
  edestruct (fun enc =>
               decode_encode ascii_isword ascii_isspace ascii_as_bytes
                 sum_bytes no_files
                 (Some [text_of "cat"; text_of "dog"; text_of "fish"]) None 1
                 (text_of "UNK") enc (text_of "bird dog, cat!"))
    as [Hdec _]; [reflexivity | vm_compute; reflexivity |].
  rewrite Hdec. vm_compute. reflexivity.
Defined.

(** X13. Without a bucket ([B <= 0]), [encode] raises at the first token of
    the input that is not in the vocabulary, and names that token; the
    tokens after it are not looked at. *)
Theorem encode_first_oov_error (isword isspace : char -> bool)
    (as_bytes : text -> list Byte.byte) (md5 : list Byte.byte -> Z)
    (gfile : text -> option text)
    (vocab_list : option (list text)) (vocab_file : option text)
    (B : Z) (oov_token : text) (enc : TokenTextEncoder)
    (s : text) (pre post : list text) (tok : text) :
  TokenTextEncoder_init isspace gfile vocab_list vocab_file B oov_token
    = inr enc ->
  B <= 0 ->
  tokenize isword (Tokenizer_init true None) s = pre ++ tok :: post ->
  Forall (fun t => t ∈ _vocab_list enc) pre ->
  tok ∉ _vocab_list enc ->
  encode isword as_bytes md5 enc s
  = inl (ValueError (text_of "Out of vocabulary token " ++ tok)).
Proof.
  intros Hinit HB Htoks Hpre Hnot.
  apply init_inr in Hinit as (Hdict & HBenc & _ & Htok).
  unfold encode. rewrite Htok, Htoks. apply for_each_first_error.
  - eapply Forall_impl; [exact Hpre|]. intros t Hin. simpl.
    destruct (encode_token_elem as_bytes md5 enc t Hdict Hin) as (k & Hk & _).
    eauto.
  - rewrite (encode_token_oov as_bytes md5 enc tok Hdict Hnot).
    unfold _oov_bucket. rewrite HBenc.
    by rewrite (proj2 (Z.leb_le B 0)) by done.
Qed.

(** The theorem at the vocabulary [cat, dog, fish], no bucket and the
    input [dog bird emu]. *)
Lemma encode_first_oov_error_witness :
  exists enc,
    TokenTextEncoder_init ascii_isspace no_files
      (Some [text_of "cat"; text_of "dog"; text_of "fish"]) None 0
      (text_of "UNK") = inr enc
    /\ encode ascii_isword ascii_as_bytes sum_bytes enc
         (text_of "dog bird emu")
       = inl (ValueError (text_of "Out of vocabulary token bird")).
Proof.
  eexists. split; [reflexivity|].
  eapply (encode_first_oov_error ascii_isword ascii_isspace ascii_as_bytes
            sum_bytes no_files
            (Some [text_of "cat"; text_of "dog"; text_of "fish"]) None 0
            (text_of "UNK") _ (text_of "dog bird emu")
            [text_of "dog"] [text_of "emu"] (text_of "bird")).
  - reflexivity.
  - lia.
  - vm_compute. reflexivity.
  - repeat constructor.
  - apply (bool_decide_unpack _). vm_compute. exact I.
Defined.

(** X14. [encode] returns exactly when there is a bucket ([B > 0]) or
    every token of the input is in the vocabulary. *)
Theorem encode_returns_iff (isword isspace : char -> bool)
    (as_bytes : text -> list Byte.byte) (md5 : list Byte.byte -> Z)
    (gfile : text -> option text)
    (vocab_list : option (list text)) (vocab_file : option text)
    (B : Z) (oov_token : text) (enc : TokenTextEncoder) (s : text) :
  TokenTextEncoder_init isspace gfile vocab_list vocab_file B oov_token
    = inr enc ->
  ((exists ids, encode isword as_bytes md5 enc s = inr ids)
   <-> 0 < B \/ Forall (fun tok => tok ∈ _vocab_list enc)
                  (tokenize isword (Tokenizer_init true None) s)).
Proof.
  intros Hinit. apply init_inr in Hinit as (Hdict & HBenc & _ & Htok).
  unfold encode. rewrite Htok. split.
  - intros [ids Hids]. apply for_each_inr in Hids.
    destruct (Z.lt_ge_cases 0 B) as [HB|HB]; [by left|right].
    induction Hids as [|tok id toks ids' Hid _ IH]; constructor; [|done].
    destruct (encode_token_inr as_bytes md5 enc tok id Hdict Hid)
      as [(Hin & _)|(_ & HB' & _)]; [done|lia].
  - intros Hor.
    destruct (for_each_total (encode_token as_bytes md5 enc)
                (tokenize isword (Tokenizer_init true None) s))
      as (ids & Hids & _); [|eauto].
    intros tok Htokin.
    destruct (decide (tok ∈ _vocab_list enc)) as [Hin|Hnot].
    + destruct (encode_token_elem as_bytes md5 enc tok Hdict Hin)
        as (k & Hk & _). eauto.
    + destruct Hor as [HB|Hall].
      * rewrite (encode_token_oov as_bytes md5 enc tok Hdict Hnot).
        unfold _oov_bucket. rewrite HBenc.
        rewrite (proj2 (Z.leb_gt B 0)) by done.
        destruct (B =? 1); eauto.
      * rewrite Forall_forall in Hall. by destruct Hnot; apply Hall.
Qed.

(** The theorem at the vocabulary [cat, dog, fish], no bucket and the
    input [dog, cat]. *)
Lemma encode_returns_iff_witness :
  exists enc,
    TokenTextEncoder_init ascii_isspace no_files
      (Some [text_of "cat"; text_of "dog"; text_of "fish"]) None 0
      (text_of "UNK") = inr enc
    /\ ((exists ids,
           encode ascii_isword ascii_as_bytes sum_bytes enc (text_of "dog, cat")
           = inr ids)
        <-> 0 < 0 \/ Forall (fun tok => tok ∈ _vocab_list enc)
                       (tokenize ascii_isword (Tokenizer_init true None)
                          (text_of "dog, cat"))).
Proof.
  eexists. split; [reflexivity|].
  eapply (encode_returns_iff ascii_isword ascii_isspace ascii_as_bytes
            sum_bytes no_files
            (Some [text_of "cat"; text_of "dog"; text_of "fish"]) None 0
            (text_of "UNK") _ (text_of "dog, cat")).
  reflexivity.
Defined.

(** X15. [decode] raises exactly when one of the ids is below [-V], the
    negated vocabulary length, and then raises an [IndexError]; every
    other list of ids, of any length, is decoded. *)
Theorem decode_raises_iff (enc : TokenTextEncoder) (ids : list Z) :
  ((exists e, decode enc ids = inl e)
   <-> Exists (fun id => id < - Z.of_nat (length (_vocab_list enc))) ids)
  /\ (forall e, decode enc ids = inl e -> e = IndexError).
Proof.
  assert (forall id,
            (id < - Z.of_nat (length (_vocab_list enc))
             /\ decode_id enc id = inl IndexError)
            \/ (- Z.of_nat (length (_vocab_list enc)) <= id
                /\ exists t, decode_id enc id = inr t)) as Hid.
  { intros id. unfold decode_id.
    destruct (Z.lt_ge_cases id (- Z.of_nat (length (_vocab_list enc))))
      as [Hlt|Hge].
    - left. split; [done|].
      rewrite (proj2 (Z.ltb_lt _ _)) by lia. by apply py_index_below.
    - right. split; [lia|].
      destruct (Z.ltb_spec id (Z.of_nat (length (_vocab_list enc))));
        [|eauto].
      destruct (Z.lt_ge_cases id 0) as [Hneg|Hpos].
      + destruct (py_index_neg (_vocab_list enc) id) as (x & _ & Hx);
          [lia|eauto].
      + destruct (lookup_lt_is_Some_2 (_vocab_list enc) (Z.to_nat id))
          as [x Hx]; [lia|].
        exists x. rewrite <- (Z2Nat.id id) by lia. by apply py_index_nat. }
  unfold decode. induction ids as [|id ids [IH1 IH2]]; simpl.
  - split; [|done]. split; [by intros [? ?]|by inversion 1].
  - destruct (Hid id) as [[Hlt ->]|[Hge [t ->]]]; simpl.
    + split; [|by intros e [= <-]].
      split; [intros _; by constructor|eauto].
    + destruct (for_each (decode_id enc) ids) as [e|ts] eqn:Hfe; simpl in *.
      * split; [|done]. split; [intros _|eauto].
        apply Exists_cons_tl. apply IH1. eauto.
      * split; [|done]. split; [by intros [? ?]|].
        intros Hex. apply Exists_cons in Hex as [Hlt|Hex]; [lia|].
        by apply IH1 in Hex as [? ?].
Qed.

(** ** The vocabulary file *)

Lemma length_str_split (sep : char) (s : text) :
  length (str_split sep s) = S (length (List.filter (N.eqb sep) s)).
Proof.
  induction s as [|c s IH]; simpl; [done|].
  rewrite (N.eqb_sym sep c). destruct (N.eqb c sep); simpl; [by rewrite IH|].
  destruct (str_split sep s); simpl in *; lia.
Qed.

(** X16. [_load_tokens_from_file] raises when the file is not found;
    otherwise it returns one stripped token per line, one more than the
    file has newline characters, so an empty file gives one empty token
    and lines may give empty tokens. *)
Theorem load_tokens_one_per_line (isspace : char -> bool)
    (gfile : text -> option text) (fname : text) :
  (gfile fname = None ->
   _load_tokens_from_file isspace gfile fname = inl (NotFoundError fname))
  /\ (forall content, gfile fname = Some content ->
      exists toks,
        _load_tokens_from_file isspace gfile fname = inr toks
        /\ length toks = S (length (List.filter (N.eqb 10%N) content))
        /\ Forall (fun t => strip isspace t = t) toks).
Proof.
  unfold _load_tokens_from_file. split.
  - by intros ->.
  - intros content ->. eexists. split; [done|]. split.
    + by rewrite length_fmap, length_str_split.
    + apply Forall_fmap, Forall_forall. intros t _. apply strip_idemp.
Qed.

(** X17. Storing the vocabulary and constructing an encoder from the stored
    file, with the same buckets and OOV marker, gives the same encoder,
    provided no token holds a newline and the text written is read back
    as it was. *)
Theorem store_to_file_init_roundtrip (isspace : char -> bool)
    (as_bytes : text -> list Byte.byte)
    (as_text : list Byte.byte -> option text)
    (gfile : text -> option text)
    (vocab_list : option (list text)) (vocab_file : option text)
    (B : Z) (oov_token : text) (enc : TokenTextEncoder)
    (fname : text) (fs : gmap text (list Byte.byte)) :
  TokenTextEncoder_init isspace gfile vocab_list vocab_file B oov_token
    = inr enc ->
  fname <> [] ->
  Forall (fun t => 10%N ∉ t) (_vocab_list enc) ->
  as_text (as_bytes (str_join [10%N] (_vocab_list enc)))
    = Some (str_join [10%N] (_vocab_list enc)) ->
  _load_tokens_from_file isspace
    (read_text as_text (store_to_file as_bytes enc fname fs)) fname
    = inr (tokens enc)
  /\ TokenTextEncoder_init isspace
       (read_text as_text (store_to_file as_bytes enc fname fs))
       None (Some fname) B oov_token = inr enc.
Proof.
  intros Hinit Hfname Hnl Hcodec.
  destruct (init_vocab _ _ _ _ _ _ _ Hinit) as (els & Hels & Hvocab).
  apply init_inr in Hinit as (Hdict & HB & Hoov & Htok).
  assert (strip isspace <$> _vocab_list enc = _vocab_list enc) as Hstrip.
  { rewrite Hvocab, <- list_fmap_compose. apply list_fmap_ext.
    intros i t _. simpl. apply strip_idemp. }
  assert (_load_tokens_from_file isspace
            (read_text as_text (store_to_file as_bytes enc fname fs)) fname
          = inr (_vocab_list enc)) as Hload.
  { unfold _load_tokens_from_file, read_text, store_to_file.
    rewrite lookup_insert_eq. simpl. rewrite Hcodec.
    rewrite str_split_join; [by rewrite Hstrip| |done].
    rewrite Hvocab. by destruct els. }
  split; [done|].
  unfold TokenTextEncoder_init. destruct fname as [|c fname]; [done|].
  simpl. rewrite Hload. simpl. rewrite Hstrip.
  destruct enc; simpl in *. by subst.
Qed.

(** The theorem at the vocabulary [cat, dog, fish], stored as
    [vocab.txt] where there was no file. *)
Lemma store_to_file_init_roundtrip_witness :
  exists enc,
    TokenTextEncoder_init ascii_isspace no_files
      (Some [text_of "cat"; text_of "dog"; text_of "fish"]) None 1
      (text_of "UNK") = inr enc
    /\ _load_tokens_from_file ascii_isspace
         (read_text ascii_as_text
            (store_to_file ascii_as_bytes enc (text_of "vocab.txt") ∅))
         (text_of "vocab.txt")
       = inr (tokens enc)
    /\ TokenTextEncoder_init ascii_isspace
         (read_text ascii_as_text
            (store_to_file ascii_as_bytes enc (text_of "vocab.txt") ∅))
         None (Some (text_of "vocab.txt")) 1 (text_of "UNK") = inr enc.
Proof.
  eexists. split; [reflexivity|].
  eapply (store_to_file_init_roundtrip ascii_isspace ascii_as_bytes
            ascii_as_text no_files
            (Some [text_of "cat"; text_of "dog"; text_of "fish"]) None 1
            (text_of "UNK") _ (text_of "vocab.txt") ∅).
  - reflexivity.
  - discriminate.
  - repeat constructor; apply (bool_decide_unpack _); vm_compute; exact I.
  - vm_compute. reflexivity.
Defined.

(** ** The byte encoder *)

Lemma bytearray_of_bytes (bs : list Byte.byte) :
  bytearray ((fun b => Z.of_N (Byte.to_N b)) <$> bs) = Some bs.
Proof.
  induction bs as [|b bs IH]; simpl in *; [done|].
  pose proof (Byte.to_N_bounded b) as Hb.
  rewrite (proj2 (Z.leb_le 0 _)) by lia.
  rewrite (proj2 (Z.ltb_lt _ 256)) by lia. simpl.
  rewrite N2Z.id, Byte.of_to_N.
  change (list_fmap _ _ ?f bs) with (f <$> bs). by rewrite IH.
Qed.

(** X18. Every id of [ByteTextEncoder.encode] lies in [[0, vocab_size)],
    and there is one id per byte of the UTF-8 encoding. *)
Theorem byte_encode_in_range (as_bytes : text -> list Byte.byte) (s : text) :
  Forall (fun id => 0 <= id < byte_vocab_size) (byte_encode as_bytes s)
  /\ length (byte_encode as_bytes s) = length (as_bytes s).
Proof.
  unfold byte_encode. split; [|by rewrite length_fmap].
  apply Forall_fmap, Forall_forall. intros b _. simpl.
  pose proof (Byte.to_N_bounded b). unfold byte_vocab_size. lia.
Qed.

(** X19. [ByteTextEncoder.decode] undoes [encode] on every string whose
    UTF-8 encoding decodes to it. *)
Theorem byte_decode_encode (as_bytes : text -> list Byte.byte)
    (as_text : list Byte.byte -> option text) (s : text) :
  as_text (as_bytes s) = Some s ->
  byte_decode as_text (byte_encode as_bytes s) = inr s.
Proof.
  intros Hcodec. unfold byte_decode, byte_encode.
  by rewrite bytearray_of_bytes, Hcodec.
Qed.

(** The theorem at [Hello, world!]. *)
Lemma byte_decode_encode_witness :
  byte_decode ascii_as_text
    (byte_encode ascii_as_bytes (text_of "Hello, world!"))
  = inr (text_of "Hello, world!").
Proof.
  apply (byte_decode_encode ascii_as_bytes ascii_as_text
           (text_of "Hello, world!")).
  vm_compute. reflexivity.
Defined.

(** X20. [ByteTextEncoder.decode] raises the error of [bytearray] exactly
    when one of the ids is outside [[0, 256)]; on ids in range it returns
    what [as_text] makes of the bytes. *)
Theorem byte_decode_range_error (as_text : list Byte.byte -> option text)
    (ids : list Z) :
  (byte_decode as_text ids = inl ByteRangeError
   <-> Exists (fun id => ~ (0 <= id < 256)) ids)
  /\ (Forall (fun id => 0 <= id < 256) ids ->
      exists bs,
        bytearray ids = Some bs
        /\ ids = (fun b => Z.of_N (Byte.to_N b)) <$> bs
        /\ byte_decode as_text ids
           = match as_text bs with
             | Some s => inr s
             | None => inl UnicodeDecodeError
             end).
Proof.
  assert (Forall (fun id => 0 <= id < 256) ids ->
          exists bs, bytearray ids = Some bs
                     /\ ids = (fun b => Z.of_N (Byte.to_N b)) <$> bs) as Hok.
  { induction 1 as [|id ids Hid _ (bs & Hbs & Heq)]; [by exists []|].
    simpl. rewrite (proj2 (Z.leb_le 0 _)) by lia.
    rewrite (proj2 (Z.ltb_lt _ 256)) by lia. simpl.
    destruct (Byte.of_N (Z.to_N id)) as [b|] eqn:Hb.
    - exists (b :: bs). rewrite Hbs. split; [done|]. simpl.
      apply Byte.to_of_N in Hb. rewrite Hb, Z2N.id by lia. by f_equal.
    - apply Byte.of_N_None_iff in Hb. lia. }
  assert (Exists (fun id => ~ (0 <= id < 256)) ids -> bytearray ids = None)
    as Hbad.
  { clear Hok. induction 1 as [id ids Hid|id ids _ IH]; simpl.
    - destruct (Z.leb_spec 0 id); [|done].
      destruct (Z.ltb_spec id 256); [lia|done].
    - rewrite IH. destruct (_ && _); [|done].
      by destruct (Byte.of_N _). }
  split.
  - split.
    + intros Hdec.
      destruct (decide (Forall (fun id => 0 <= id < 256) ids)) as [Hall|Hex].
      * destruct (Hok Hall) as (bs & Hbs & _).
        unfold byte_decode in Hdec. rewrite Hbs in Hdec.
        by destruct (as_text bs).
      * apply not_Forall_Exists in Hex; [done|]. intros id. apply _.
    + intros Hex. unfold byte_decode. by rewrite (Hbad Hex).
  - intros Hall. destruct (Hok Hall) as (bs & Hbs & Heq).
    exists bs. split_and!; [done..|].
    unfold byte_decode. rewrite Hbs. by destruct (as_text bs).
Qed.

(** ** The two modes of the Tokenizer *)

Section Modes.

Variable isword : char -> bool.

Lemma nonword_run_drop (s : text) :
  match drop (nonword_run isword s) s with
  | [] => True
  | c :: _ => isword c = true
  end.
Proof.
  induction s as [|c s IH]; simpl; [done|].
  by destruct (isword c) eqn:Hc.
Qed.

Lemma filter_isword_nonword (run : text) :
  forallb (fun c => negb (isword c)) run = true ->
  List.filter isword run = [].
Proof.
  induction run as [|c run IH]; simpl; [done|].
  intros [Hc Hrun]%andb_prop. destruct (isword c); [done|]. auto.
Qed.

(** The match of [\W+] at the head of [c :: s'], in its parts: the run is
    not empty, holds no word character, and ends at the end of the string
    or before a word character. *)
Lemma match_at_nonword_run (capture : bool) (c : char) (s' : text) (n : nat) :
  match_at isword (NonWordRun capture) (c :: s') = Some (S n) ->
  isword c = false
  /\ forallb (fun c => negb (isword c)) (take (S n) (c :: s')) = true
  /\ match drop n s' with
     | [] => True
     | d :: _ => isword d = true
     end.
Proof.
  intros Hm. destruct (match_at_nonword_Some isword _ _ _ Hm) as [Hn _].
  split_and!.
  - simpl in Hn. by destruct (isword c).
  - rewrite Hn. apply nonword_run_take.
  - pose proof (nonword_run_drop (c :: s')) as Hd. by rewrite <- Hn in Hd.
Qed.

(** The pieces of the split without the group, in order, are the word
    characters of the text. *)
Lemma re_split_from_concat_words (s cur : text) :
  concat (re_split_from isword (NonWordRun false) s cur)
  = cur ++ List.filter isword s.
Proof.
  remember (length s) as n eqn:Hn. revert s cur Hn.
  induction n as [n IH] using lt_wf_ind. intros s cur ->.
  destruct s as [|c s'].
  - simp re_split_from. simpl. by rewrite app_nil_r.
  - destruct (match_at isword (NonWordRun false) (c :: s')) as [[|k]|] eqn:Hm.
    + by destruct (match_at_nonword_Some isword _ _ _ Hm).
    + rewrite (re_split_from_match isword _ c s' cur k Hm).
      destruct (match_at_nonword_run _ _ _ _ Hm) as (Hc & Hrun & _).
      simpl concat. rewrite (IH (length (drop k s'))); [|rewrite length_drop; simpl; lia|done].
      rewrite <- (take_drop (S k) (c :: s')).
      rewrite List.filter_app, (filter_isword_nonword _ Hrun). done.
    + rewrite (re_split_from_skip isword _ c s' cur Hm).
      rewrite (IH (length s')); [|simpl; lia|done].
      simpl. rewrite (match_at_nonword_None isword _ _ _ Hm).
      by rewrite <- app_assoc.
Qed.

(** Without the group the split gives the pieces of the split with the
    group, minus the separators. *)
Lemma re_split_from_drop_group (s cur : text) :
  forallb isword cur = true ->
  re_split_from isword (NonWordRun false) s cur
  = List.filter (forallb isword)
      (re_split_from isword (NonWordRun true) s cur).
Proof.
  remember (length s) as n eqn:Hn. revert s cur Hn.
  induction n as [n IH] using lt_wf_ind. intros s cur -> Hcur.
  destruct s as [|c s'].
  - simp re_split_from. simpl. by rewrite Hcur.
  - destruct (match_at isword (NonWordRun true) (c :: s')) as [[|k]|] eqn:Hm.
    + by destruct (match_at_nonword_Some isword _ _ _ Hm).
    + rewrite (re_split_from_match isword (NonWordRun false) c s' cur k Hm).
      rewrite (re_split_from_match isword (NonWordRun true) c s' cur k Hm).
      destruct (match_at_nonword_run _ _ _ _ Hm) as (Hc & _ & _).
      simpl. rewrite Hcur, Hc. simpl.
      f_equal. apply (IH (length (drop k s'))); [|done..].
      rewrite length_drop. simpl. lia.
    + rewrite (re_split_from_skip isword (NonWordRun false) c s' cur Hm).
      rewrite (re_split_from_skip isword (NonWordRun true) c s' cur Hm).
      apply (IH (length s')); [simpl; lia|done|].
      rewrite forallb_app, Hcur. simpl.
      by rewrite (match_at_nonword_None isword _ _ _ Hm).
Qed.

Lemma filter_filter_comm {A} (f g : A -> bool) (l : list A) :
  List.filter f (List.filter g l) = List.filter g (List.filter f l).
Proof.
  induction l as [|a l IH]; simpl; [done|].
  destruct (g a) eqn:Hg, (f a) eqn:Hf; simpl; rewrite ?Hg, ?Hf, IH; done.
Qed.

Lemma alternates_cons (a : text) (l : list text) :
  alternates isword l = true ->
  match l with
  | [] => True
  | b :: _ => starts_word isword a <> starts_word isword b
  end ->
  alternates isword (a :: l) = true.
Proof.
  intros Hl Hab. simpl. rewrite Hl. destruct l as [|b l']; [done|].
  by destruct (starts_word isword a), (starts_word isword b).
Qed.

(** The tokens of the split with the group alternate, and begin with a
    word when the piece being read is not empty or a word character comes
    first. *)
Lemma re_split_from_alternates (s cur : text) :
  forallb isword cur = true ->
  let out := List.filter truthy (re_split_from isword (NonWordRun true) s cur) in
  alternates isword out = true
  /\ (cur <> [] \/ match s with [] => False | c :: _ => isword c = true end ->
      match out with
      | [] => True
      | t :: _ => starts_word isword t = true
      end).
Proof.
  remember (length s) as n eqn:Hn. revert s cur Hn.
  induction n as [n IH] using lt_wf_ind. intros s cur -> Hcur out.
  assert (cur <> [] -> starts_word isword cur = true) as Hcurw.
  { destruct cur as [|a cur']; [done|]. simpl in *.
    by apply andb_prop in Hcur as [-> _]. }
  destruct s as [|c s']; subst out.
  - simp re_split_from. destruct cur as [|a cur']; [done|].
    simpl. split; [done|]. intros _. by apply Hcurw.
  - destruct (match_at isword (NonWordRun true) (c :: s')) as [[|k]|] eqn:Hm.
    + by destruct (match_at_nonword_Some isword _ _ _ Hm).
    + rewrite (re_split_from_match isword _ c s' cur k Hm).
      destruct (match_at_nonword_run _ _ _ _ Hm) as (Hc & Hrun & Hrest).
      assert (alternates isword
                (take (S k) (c :: s')
                   :: List.filter truthy
                        (re_split_from isword (NonWordRun true)
                           (drop k s') [])) = true) as Hrunalt.
      { destruct (IH (length (drop k s'))
                    ltac:(rewrite length_drop; simpl; lia)
                    (drop k s') [] eq_refl eq_refl) as [Halt Hfirst].
        apply alternates_cons; [done|].
        destruct (drop k s') as [|d r] eqn:Hd.
        - by simp re_split_from.
        - specialize (Hfirst (or_intror Hrest)).
          destruct (List.filter truthy _) as [|b rest']; [done|].
          simpl. by rewrite Hc, Hfirst. }
      simpl. destruct cur as [|a cur']; simpl.
      * split; [exact Hrunalt|]. rewrite Hc. by intros [|].
      * simpl in Hcur. apply andb_prop in Hcur as [Ha _].
        split; [|by intros _].
        replace (negb (eqb (isword a) (isword c))) with true
          by (by rewrite Ha, Hc).
        exact Hrunalt.
    + rewrite (re_split_from_skip isword _ c s' cur Hm).
      destruct (IH (length s') ltac:(simpl; lia) s' (cur ++ [c]) eq_refl)
        as [Halt Hfirst].
      { rewrite forallb_app, Hcur. simpl.
        by rewrite (match_at_nonword_None isword _ _ _ Hm). }
      split; [done|]. intros _. apply Hfirst. left. by destruct cur.
Qed.

End Modes.

(** X21. Under [alphanum_only=True] without reserved tokens, the tokens,
    one after the other, are the word characters of the input in their
    order: only characters that are not word characters are dropped. *)
Theorem tokenize_keeps_word_characters (isword : char -> bool) (s : text) :
  concat (tokenize isword (Tokenizer_init true None) s)
  = List.filter isword s.
Proof.
  rewrite tokenize_plain by done. rewrite concat_filter_truthy.
  unfold re_split. simpl. by rewrite re_split_from_concat_words.
Qed.

(** X22. Without reserved tokens, the tokens under [alphanum_only=True]
    are the tokens under [alphanum_only=False] that are made of word
    characters, in the same order. *)
Theorem tokenize_modes (isword : char -> bool) (s : text) :
  tokenize isword (Tokenizer_init true None) s
  = List.filter (forallb isword)
      (tokenize isword (Tokenizer_init false None) s).
Proof.
  rewrite !tokenize_plain by done. unfold re_split. simpl.
  rewrite re_split_from_drop_group by done. apply filter_filter_comm.
Qed.

(** X23. Without reserved tokens and under [alphanum_only=False], the
    tokens are maximal runs: a token of word characters is followed by a
    token of other characters, and the other way round. *)
Theorem tokenize_alternates (isword : char -> bool) (s : text) :
  alternates isword (tokenize isword (Tokenizer_init false None) s) = true.
Proof.
  rewrite tokenize_plain by done. unfold re_split. simpl.
  by destruct (re_split_from_alternates isword s [] eq_refl) as [Halt _].
Qed.

(** With one bucket, the OOV marker, kept out of the vocabulary, gets the
    id of any token outside the vocabulary. *)
Lemma encode_token_known_or_oov (as_bytes : text -> list Byte.byte)
    (md5 : list Byte.byte -> Z) (enc : TokenTextEncoder)
    (tok : text) (id : Z) :
  _token_to_id enc =
    dict (zip (_vocab_list enc) (range (length (_vocab_list enc)))) ->
  _oov_buckets enc = 1 ->
  _oov_token enc ∉ _vocab_list enc ->
  encode_token as_bytes md5 enc tok = inr id ->
  encode_token as_bytes md5 enc (known_or_oov enc tok) = inr id.
Proof.
  intros Hdict HB Hoov Henc. unfold known_or_oov.
  destruct (decide (tok ∈ _vocab_list enc)) as [Hin|Hnot]; [done|].
  rewrite (encode_token_oov as_bytes md5 enc tok Hdict Hnot) in Henc.
  rewrite (encode_token_oov as_bytes md5 enc _ Hdict Hoov).
  unfold _oov_bucket in *. by rewrite HB in *.
Qed.

(** X24. Encoding again what [decode] made of the ids of an input gives
    the same ids, when the space is not a word character and either every
    token of the input is in the vocabulary, or there is one bucket and the
    OOV marker is a run of word characters outside the vocabulary. *)
Theorem encode_decode_encode (isword isspace : char -> bool)
    (as_bytes : text -> list Byte.byte) (md5 : list Byte.byte -> Z)
    (gfile : text -> option text)
    (vocab_list : option (list text)) (vocab_file : option text)
    (B : Z) (oov_token : text) (enc : TokenTextEncoder)
    (s : text) (ids : list Z) :
  TokenTextEncoder_init isspace gfile vocab_list vocab_file B oov_token
    = inr enc ->
  isword 32%N = false ->
  encode isword as_bytes md5 enc s = inr ids ->
  Forall (fun tok => tok ∈ _vocab_list enc)
    (tokenize isword (Tokenizer_init true None) s)
  \/ (B = 1 /\ word_token isword oov_token
      /\ (oov_token ∉ _vocab_list enc)) ->
  exists txt,
    decode enc ids = inr txt
    /\ encode isword as_bytes md5 enc txt = inr ids.
Proof.
  intros Hinit Hsp Henc Hcase.
  apply init_inr in Hinit as (Hdict & HBenc & Hoov & Htok).
  unfold encode in *. rewrite Htok in *.
  assert (Forall (word_token isword)
            (tokenize isword (Tokenizer_init true None) s)) as Hwords.
  { eapply Forall_impl; [apply (tokenize_kinds isword true None s)|].
    simpl. intros tok [Hne [Hin|[Hw|[Hf _]]]]; try done.
    by apply elem_of_nil in Hin. }
  remember (tokenize isword (Tokenizer_init true None) s) as toks eqn:Htoks.
  clear Htoks.
  exists (join (Tokenizer_init true None) (known_or_oov enc <$> toks)).
  split; [by apply (decode_encoded_tokens as_bytes md5)|].
  destruct Hcase as [Hall|(-> & Hw & Hnot)].
  - rewrite known_or_oov_known by done.
    by rewrite tokenize_join_word_list.
  - subst oov_token. rewrite tokenize_join_word_list; [|done|].
    + apply for_each_inr. apply for_each_inr in Henc.
      clear Hwords. induction Henc as [|tok id toks' ids' Hid _ IH];
        simpl; constructor; [|done].
      by apply encode_token_known_or_oov.
    + apply Forall_fmap. eapply Forall_impl; [exact Hwords|].
      intros tok Htokw. simpl. unfold known_or_oov. by destruct (decide _).
Qed.

(** The theorem at the vocabulary [cat, dog, fish], one bucket and the
    input [bird dog, cat!]. *)
Lemma encode_decode_encode_witness :
  exists enc ids txt,
    TokenTextEncoder_init ascii_isspace no_files
      (Some [text_of "cat"; text_of "dog"; text_of "fish"]) None 1
      (text_of "UNK") = inr enc
    /\ encode ascii_isword ascii_as_bytes sum_bytes enc
         (text_of "bird dog, cat!") = inr ids
    /\ decode enc ids = inr txt
    /\ encode ascii_isword ascii_as_bytes sum_bytes enc txt = inr ids.
Proof.
  eexists. eexists.
  edestruct (fun enc =>
               encode_decode_encode ascii_isword ascii_isspace ascii_as_bytes
                 sum_bytes no_files
                 (Some [text_of "cat"; text_of "dog"; text_of "fish"]) None 1
                 (text_of "UNK") enc (text_of "bird dog, cat!"))
    as (txt & Hdec & Henc).
  - reflexivity.
  - reflexivity.
  - vm_compute. reflexivity.
  - right. split; [reflexivity|]. split.
    + split; [discriminate|reflexivity].
    + apply (bool_decide_unpack _). vm_compute. exact I.
  - exists txt. split; [reflexivity|]. split; [vm_compute; reflexivity|].
    split; [exact Hdec|exact Henc].
Defined.

(** X25. [ByteTextEncoder.encode] undoes [decode] on every list of ids
    that decodes, when the bytes of the ids are the UTF-8 encoding of the
    decoded string. *)
Theorem byte_encode_decode (as_bytes : text -> list Byte.byte)
    (as_text : list Byte.byte -> option text) (ids : list Z) (s : text) :
  byte_decode as_text ids = inr s ->
  (forall bs, bytearray ids = Some bs -> as_bytes s = bs) ->
  byte_encode as_bytes s = ids.
Proof.
  intros Hdec Hcodec. unfold byte_decode in Hdec.
  destruct (bytearray ids) as [bs|] eqn:Hbs; [|done].
  unfold byte_encode. rewrite (Hcodec bs eq_refl). clear Hdec Hcodec.
  revert bs Hbs. induction ids as [|id ids IH]; intros bs Hbs; simpl in Hbs.
  - by injection Hbs as <-.
  - destruct (Z.leb_spec 0 id); [|done].
    destruct (Z.ltb_spec id 256); [|done]. simpl in Hbs.
    destruct (Byte.of_N (Z.to_N id)) as [b|] eqn:Hb; [|done].
    destruct (bytearray ids) as [bs'|]; [|done].
    injection Hbs as <-. rewrite fmap_cons, (IH bs' eq_refl).
    apply Byte.to_of_N in Hb. by rewrite Hb, Z2N.id by lia.
Qed.

(** The theorem at the ids [72, 105]. *)
Lemma byte_encode_decode_witness :
  byte_decode ascii_as_text [72; 105] = inr (text_of "Hi")
  /\ byte_encode ascii_as_bytes (text_of "Hi") = [72; 105].
Proof.
  split; [reflexivity|].
  apply (byte_encode_decode ascii_as_bytes ascii_as_text [72; 105]
           (text_of "Hi")).
  - reflexivity.
  - intros bs Hbs. vm_compute in Hbs. injection Hbs as <-. reflexivity.
Defined.
